(** * Universal alloy strength predictor: the estimation core of [app.py]

    The three functions [estimate_hv], [hv_to_uts] and [uts_to_ys] of the
    source are embedded over binary64 numbers, the numbers a Python [float]
    holds.  Arithmetic and comparisons are the primitive IEEE 754 operations
    of [PrimFloat]; general facts about them are derived from their
    specification [SpecFloat] through the equations of [FloatAxioms]. *)

From Stdlib Require Import ZArith Lia Bool List String Permutation.
From Stdlib Require Import Uint63 Floats Zpower.
Import ListNotations.

Set Warnings "-inexact-float".

Local Open Scope string_scope.
Local Open Scope float_scope.

(** ** Python dictionaries

    A [dict] keeps its entries in insertion order and its keys are pairwise
    distinct; it is modelled by the list of its items.  [dict_get d k v] is
    [d.get(k, v)]. *)

Definition dict (V : Type) : Type := list (string * V).

Fixpoint dict_get {V : Type} (d : dict V) (k : string) (default : V) : V :=
  match d with
  | [] => default
  | (k', v) :: d' => if String.eqb k' k then v else dict_get d' k default
  end.

Definition keys {V : Type} (d : dict V) : list string := map fst d.

Definition values {V : Type} (d : dict V) : list V := map snd d.

(** [has_key d k] is [k in d]. *)
Definition has_key {V : Type} (d : dict V) (k : string) : bool :=
  existsb (String.eqb k) (keys d).

(** ** Base data *)

Definition BASE_HV : dict Z :=
  [ ("Fe", 120%Z); ("Al", 70%Z); ("Cu", 80%Z); ("Ti", 100%Z);
    ("Ni", 100%Z); ("Co", 110%Z); ("Mg", 60%Z); ("Zn", 70%Z) ].

Definition ELEMENT_FACTOR : dict float :=
  [ ("C", 180.0); ("Cr", 6.0); ("Ni", 5.0); ("Mo", 9.0); ("Mn", 3.0); ("Si", 2.0);
    ("V", 12.0); ("Ti", 8.0); ("Al", 3.0); ("Cu", 3.0); ("Nb", 14.0); ("W", 10.0);
    ("Co", 6.0); ("Zn", 1.0); ("Sn", 1.0); ("Pb", -5.0); ("S", -10.0); ("P", -8.0);
    ("B", 60.0); ("N", 40.0); ("O", -20.0); ("SiO2", -5.0) ].

Definition DEFAULT_ELEM_FACTOR : float := 2.0.

Definition HT_HV_MULT : dict float :=
  [ ("Annealing", 0.8); ("Normalizing", 1.0); ("Hardening", 1.2);
    ("Tempering", 1.05); ("Age hardening", 1.25); ("Carburizing", 1.2);
    ("Nitriding", 1.3); ("Cyaniding", 1.25); ("Stress relieving", 0.98);
    ("Quenching", 1.35) ].

Definition HT_YS_FRAC : dict float :=
  [ ("Annealing", 0.55); ("Normalizing", 0.65); ("Hardening", 0.78);
    ("Tempering", 0.72); ("Age hardening", 0.85); ("Carburizing", 0.80);
    ("Nitriding", 0.90); ("Cyaniding", 0.85); ("Stress relieving", 0.75);
    ("Quenching", 0.82) ].

Definition HV_TO_UTS : float := 3.45.

(** ** Python built-ins on floats *)

(** An [int] operand of a float operation is converted first.  The
    conversion is exact below [2^53], which covers every entry of
    [BASE_HV] and its default. *)
Definition float_of_int (z : Z) : float :=
  if (z <? 0)%Z then - of_uint63 (Uint63.of_Z (- z)) else of_uint63 (Uint63.of_Z z).

(** [min(a, b)] keeps [a] unless [b < a]; [max(a, b)] keeps [a] unless
    [b > a]. *)
Definition py_min (a b : float) : float := if b <? a then b else a.

Definition py_max (a b : float) : float := if a <? b then b else a.

(** [sum(xs)] adds the items from left to right to the start value [0].
    The start value is an [int]; it is converted to [0.0] as soon as it
    meets a float, be it the first item or, for an empty [xs], the float
    the caller adds the sum to.  (CPython 3.12 and later carry a
    compensation term along the float additions; the result can then
    differ in the last bit once three or more items are summed.) *)
Definition py_sum (xs : list float) : float := fold_left add xs 0.

(** The integer nearest to [a / b] for [b > 0], ties to the even one. *)
Definition round_half_even (a b : Z) : Z :=
  let q := (a / b)%Z in
  match (2 * (a mod b) ?= b)%Z with
  | Lt => q
  | Gt => (q + 1)%Z
  | Eq => if Z.even q then q else (q + 1)%Z
  end.

(** The number of tenths nearest to [m * 2^e], ties to even. *)
Definition decimal_tenths (m : positive) (e : Z) : Z :=
  if (0 <=? e)%Z then (10 * Zpos m * 2 ^ e)%Z
  else round_half_even (10 * Zpos m) (2 ^ (- e)).

(** The float nearest to [n / 10] for [0 <= n < 2^53]: both operands are
    exact and the division rounds correctly. *)
Definition float_of_tenths (n : Z) : float := of_uint63 (Uint63.of_Z n) / 10.

(** [round(x, 1)]: the exact value of [x] is rounded to one decimal place,
    ties to even, and the decimal is converted back to the nearest float.
    Zeros, infinities and NaN round to themselves.  A finite [x] whose
    number of tenths reaches [2^53] is at least [2^49] in magnitude; floats
    that large are 0.125 or more apart, so the float nearest to the decimal
    is [x] itself. *)
Definition py_round1 (x : float) : float :=
  match Prim2SF x with
  | S754_finite s m e =>
      let n := decimal_tenths m e in
      if (n <? 2 ^ 53)%Z
      then (if s then - float_of_tenths n else float_of_tenths n)
      else x
  | _ => x
  end.

(** ** Core logic *)

Definition carbon_contribution (matrix : string) (C : float) : float :=
  if String.eqb matrix "Fe" then
    if C <=? 0.2 then 120.0 * (C / 0.2)
    else 120.0 + 400.0 * (C - 0.2)
  else 40.0 * C.

Definition not_carbon (item : string * float) : bool :=
  negb (String.eqb (fst item) "C").

Definition element_term (item : string * float) : float :=
  dict_get ELEMENT_FACTOR (fst item) DEFAULT_ELEM_FACTOR * snd item.

Definition element_contribution (composition : dict float) : float :=
  py_sum (map element_term (filter not_carbon composition)).

(** The value of the variable [hv] before the last line of [estimate_hv]. *)
Definition raw_hv (matrix : string) (composition : dict float)
    (heat_treatment : string) : float :=
  let base := float_of_int (dict_get BASE_HV matrix 100%Z) in
  let ht := dict_get HT_HV_MULT heat_treatment 1.0 in
  let C := dict_get composition "C" 0.0 in
  let c_contrib := carbon_contribution matrix C in
  let contrib := element_contribution composition in
  (base + c_contrib + contrib) * ht.

Definition estimate_hv (matrix : string) (composition : dict float)
    (heat_treatment : string) : float :=
  let hv := raw_hv matrix composition heat_treatment in
  py_max 20.0 (py_min (py_round1 hv) 1200.0).

Definition hv_to_uts (hv : float) : float := hv * HV_TO_UTS.

Definition uts_to_ys (uts : float) (ht : string) : float :=
  uts * dict_get HT_YS_FRAC ht 0.8.

(** ** The estimator as the specification words it

    The table lookups with their defaults, the three-way carbon
    contribution, the generic contribution, the raw hardness, the clamp to
    [[20.0, 1200.0]] and the rounding to one decimal place.  These
    definitions are written from the specification; they use the tables
    and the arithmetic of binary64, and none of the definitions that embed
    the source. *)

(** The entry of a table for a name, or the default when the name has
    none. *)
Definition spec_lookup {V : Type} (table : list (string * V)) (name : string)
    (default : V) : V :=
  match find (fun entry => String.eqb (fst entry) name) table with
  | Some entry => snd entry
  | None => default
  end.

(** A whole number as a float: the float nearest to it. *)
Definition spec_number (z : Z) : float :=
  SF2Prim (binary_normalize prec emax z 0 false).

Definition spec_carbon_contribution (matrix : string) (carbon_pct : float) : float :=
  if String.eqb matrix "Fe" && (carbon_pct <=? 0.2) then 120.0 * (carbon_pct / 0.2)
  else if String.eqb matrix "Fe" && (0.2 <? carbon_pct) then 120.0 + 400.0 * (carbon_pct - 0.2)
  else 40.0 * carbon_pct.

(** The sum, over the entries whose symbol is not "C", of factor times
    weight percent, added to [total] entry by entry. *)
Fixpoint spec_generic_from (total : float) (composition : list (string * float)) : float :=
  match composition with
  | [] => total
  | (symbol, weight_percent) :: rest =>
      if String.eqb symbol "C" then spec_generic_from total rest
      else spec_generic_from
             (total + spec_lookup ELEMENT_FACTOR symbol 2.0 * weight_percent) rest
  end.

Definition spec_generic_contribution (composition : list (string * float)) : float :=
  spec_generic_from 0 composition.

Definition spec_raw_hardness (matrix : string) (composition : list (string * float))
    (heat_treatment : string) : float :=
  let base := spec_number (spec_lookup BASE_HV matrix 100%Z) in
  let multiplier := spec_lookup HT_HV_MULT heat_treatment 1.0 in
  let carbon_pct := spec_lookup composition "C" 0.0 in
  (base + spec_carbon_contribution matrix carbon_pct
        + spec_generic_contribution composition) * multiplier.

(** Clamping to [[20.0, 1200.0]]: a value of the interval is kept, one
    above it becomes 1200.0, anything else 20.0. *)
Definition spec_clamp (r : float) : float :=
  if (20.0 <=? r) && (r <=? 1200.0) then r
  else if 1200.0 <? r then 1200.0
  else 20.0.

(** [n] tenths is the decimal with one place nearest to the exact value
    of the positive float [x]: [|10 x - n| < 1/2], or [|10 x - n| = 1/2]
    with [n] even.  With [x = m * 2^e] the value [10 x] is the fraction
    [num / den] below. *)
Definition nearest_tenths (x : float) (n : Z) : bool :=
  match Prim2SF x with
  | S754_finite false m e =>
      let num := (10 * Zpos m * 2 ^ Z.max 0 e)%Z in
      let den := (2 ^ Z.max 0 (- e))%Z in
      let twice_distance := (2 * Z.abs (num - n * den))%Z in
      (twice_distance <? den)%Z || ((twice_distance =? den)%Z && Z.even n)
  | _ => false
  end.

(** The decimal [n / 10] as a float: the correctly rounded quotient of
    the floats of [n] and of ten. *)
Definition spec_tenths (n : Z) : float :=
  SF2Prim (SFdiv prec emax (binary_normalize prec emax n 0 false)
                           (binary_normalize prec emax 10 0 false)).

(** ** Auxiliary definitions for the proofs *)

(** The last line of [estimate_hv] without the rounding:
    [max(20.0, min(r, 1200.0))]. *)
Definition clamp_hv (r : float) : float := py_max 20.0 (py_min r 1200.0).

(** The exponent function of binary64 and the right shift that
    [SpecFloat.shr_fexp] applies to a mantissa [m] at exponent [e]. *)
Definition fexp64 (z : Z) : Z := fexp prec emax z.

Definition shift_of (m e : Z) : Z := Z.max 0 (fexp64 (Zdigits2 m + e) - e).

(** The float that [SpecFloat.binary_round_aux] builds from the final
    mantissa and exponent. *)
Definition sf_build (s : bool) (m e : Z) : spec_float :=
  match m with
  | Z0 => S754_zero s
  | Zpos p => if (e <=? emax - prec)%Z then S754_finite s p e else S754_infinity s
  | Zneg _ => S754_nan
  end.

(** [f] holds on [lo, lo + 1, ..., lo + count - 1]. *)
Fixpoint all_from (f : Z -> bool) (count : nat) (lo : Z) : bool :=
  match count with
  | O => true
  | S k => f lo && all_from f k (lo + 1)%Z
  end.

(** [n / 10] as a float lies on the same side of [t] as [n] lies of [T]. *)
Definition threshold_check (t : float) (T : Z) (n : Z) : bool :=
  (if (T <=? n)%Z then t <=? float_of_tenths n else true) &&
  (if (n <=? T)%Z then negb (t <? float_of_tenths n) else true).

(** [t] is the positive float [T / 10], [threshold_check] holds for every
    number of tenths below [N], and beyond [N] the exponent of [n / 10]
    alone puts it above [t]. *)
Definition threshold_ok (t : float) (T N : Z) : bool :=
  match Prim2SF t with
  | S754_finite false mt et =>
      (-1074 <=? et)%Z && (et <? 0)%Z && (et <? Z.log2 N - 56)%Z && (N <=? 2 ^ 53)%Z &&
      (10 * Zpos mt =? T * 2 ^ (- et))%Z &&
      (T * 2 ^ (- et - 1) <=? 10 * 2 ^ 52)%Z &&
      (10 * 2 ^ 53 <=? (T - 1) * 2 ^ (- et + 1))%Z &&
      (0 <? T)%Z && (T <? N)%Z &&
      all_from (threshold_check t T) (Z.to_nat N) 0
  | _ => false
  end.

(** A float in [[1/2, 1)]. *)
Definition is_fraction (f : float) : bool := (0.5 <=? f) && (f <? 1).

(** ** The callers of the core: one prediction, the form, the batch *)

(** The three numbers shown for one alloy and appended to [results] for
    one CSV row. *)
Record prediction : Type := {
  Estimated_HV : float;
  UTS_MPa : float;
  YS_MPa : float
}.

(** The call sequence of both tabs:
    [hv = estimate_hv(matrix, comp, heat)], [uts = hv_to_uts(hv)],
    [ys = uts_to_ys(uts, heat)]. *)
Definition predict (matrix : string) (comp : dict float) (heat : string) : prediction :=
  let hv := estimate_hv matrix comp heat in
  let uts := hv_to_uts hv in
  let ys := uts_to_ys uts heat in
  {| Estimated_HV := hv; UTS_MPa := uts; YS_MPa := ys |}.

(** [d[k] = v]: an existing key keeps its place and takes the new value, a
    new key goes to the end. *)
Fixpoint dict_set {V : Type} (d : dict V) (k : string) (v : V) : dict V :=
  match d with
  | [] => [(k, v)]
  | (k', v') :: d' =>
      if String.eqb k' k then (k', v) :: d' else (k', v') :: dict_set d' k v
  end.

(** One pass of the loop of the single-alloy tab over a field pair read
    from the widgets: [if el: comp[el] = pct]. *)
Definition form_step (comp : dict float) (field : string * float) : dict float :=
  if String.eqb (fst field) "" then comp else dict_set comp (fst field) (snd field).

(** The composition the single-alloy tab builds from its [n] field pairs,
    starting from [comp = {}]. *)
Definition form_composition (fields : list (string * float)) : dict float :=
  fold_left form_step fields [].

(** A cell of a data-frame row: text, a float ([NaN] for an empty cell),
    or an integer (a truth value counts as the integer 0 or 1). *)
Inductive cell : Type :=
  | Text (s : string)
  | Number (x : float)
  | Integer (z : Z).

(** A row of the uploaded table, column label to cell, in column order. *)
Definition row : Type := dict cell.

(** [pd.isna(v)]. *)
Definition isna (v : cell) : bool :=
  match v with
  | Text _ => false
  | Number x => is_nan x
  | Integer _ => false
  end.

(** [d.get(c, default)] for a key that is a cell: a number is never equal
    to one of the string keys. *)
Definition cell_get {V : Type} (d : dict V) (c : cell) (default : V) : V :=
  match c with
  | Text s => dict_get d s default
  | Number _ => default
  | Integer _ => default
  end.

(** [c == s] for a string [s]. *)
Definition cell_is (c : cell) (s : string) : bool :=
  match c with
  | Text s' => String.eqb s' s
  | Number _ => false
  | Integer _ => false
  end.

(** [estimate_hv] and [uts_to_ys] as the batch tab calls them, with the
    cells of the row as matrix and heat treatment. *)
Definition raw_hv_cell (matrix : cell) (composition : dict float)
    (heat_treatment : cell) : float :=
  let base := float_of_int (cell_get BASE_HV matrix 100%Z) in
  let ht := cell_get HT_HV_MULT heat_treatment 1.0 in
  let C := dict_get composition "C" 0.0 in
  let c_contrib :=
    if cell_is matrix "Fe" then
      if C <=? 0.2 then 120.0 * (C / 0.2)
      else 120.0 + 400.0 * (C - 0.2)
    else 40.0 * C in
  let contrib := element_contribution composition in
  (base + c_contrib + contrib) * ht.

Definition estimate_hv_cell (matrix : cell) (composition : dict float)
    (heat_treatment : cell) : float :=
  let hv := raw_hv_cell matrix composition heat_treatment in
  py_max 20.0 (py_min (py_round1 hv) 1200.0).

Definition uts_to_ys_cell (uts : float) (ht : cell) : float :=
  uts * cell_get HT_YS_FRAC ht 0.8.

Definition predict_cell (matrix : cell) (comp : dict float) (heat : cell) : prediction :=
  let hv := estimate_hv_cell matrix comp heat in
  let uts := hv_to_uts hv in
  let ys := uts_to_ys_cell uts heat in
  {| Estimated_HV := hv; UTS_MPa := uts; YS_MPa := ys |}.

(** [float(z)] for an [int]: the float nearest to [z], ties to even, or
    [None] where Python raises [OverflowError] because that float would
    be infinite. *)
Definition py_float_of_int (z : Z) : option float :=
  match binary_normalize prec emax z 0 false with
  | S754_infinity _ => None
  | s => Some (SF2Prim s)
  end.

Section Batch.

(** [float(s)] for a string: the parsed number, or [None] where Python
    raises [ValueError]. *)
Variable float_of_text : string -> option float.

(** [float(v)]. *)
Definition py_float (v : cell) : option float :=
  match v with
  | Text s => float_of_text s
  | Number x => Some x
  | Integer z => py_float_of_int z
  end.

(** One item of
    [{k: float(v) for k, v in row.items()
      if k not in ["matrix", "heat"] and not pd.isna(v)}];
    [None] once a conversion has raised. *)
Definition row_step (comp : option (dict float)) (item : string * cell)
    : option (dict float) :=
  match comp with
  | None => None
  | Some c =>
      if existsb (String.eqb (fst item)) ["matrix"; "heat"] || isna (snd item)
      then Some c
      else match py_float (snd item) with
           | Some x => Some (dict_set c (fst item) x)
           | None => None
           end
  end.

Definition row_composition (r : row) : option (dict float) :=
  fold_left row_step r (Some []).

(** The body of [for _, row in df.iterrows()]. *)
Definition process_row (r : row) : option prediction :=
  let matrix := dict_get r "matrix" (Text "Fe") in
  let heat := dict_get r "heat" (Text "Normalizing") in
  match row_composition r with
  | Some comp => Some (predict_cell matrix comp heat)
  | None => None
  end.

(** The loop over the rows: the list [results], or [None] when a row
    raised. *)
Fixpoint batch_results (rows : list row) : option (list prediction) :=
  match rows with
  | [] => Some []
  | r :: rows' =>
      match process_row r with
      | None => None
      | Some p =>
          match batch_results rows' with
          | None => None
          | Some ps => Some (p :: ps)
          end
      end
  end.

End Batch.

(** ** Auxiliary definitions for the further properties *)

(** An integer that orders the valid floats other than NaN as the float
    comparison does. *)
Definition ordkey (x : spec_float) : Z :=
  match x with
  | S754_zero _ => 0
  | S754_finite false m e => (e + 1075) * 2 ^ 53 + Zpos m
  | S754_finite true m e => - ((e + 1075) * 2 ^ 53 + Zpos m)
  | S754_infinity false => 2 ^ 64 * 2 ^ 53
  | S754_infinity true => - (2 ^ 64 * 2 ^ 53)
  | S754_nan => 0
  end%Z.

Definition fkey (x : float) : Z := ordkey (Prim2SF x).

(** [round(n / 10, 1)] is [n / 10] again. *)
Definition round1_fixed (n : Z) : bool :=
  Leibniz.eqb (py_round1 (float_of_tenths n)) (float_of_tenths n).

(** The yield fractions [uts_to_ys] can apply: the default and the table
    entries. *)
Definition yield_fractions : list float := 0.8 :: values HT_YS_FRAC.

(** The bounds of the pipeline at the estimate [n / 10]. *)
Definition pipeline_bounds_check (n : Z) : bool :=
  let uts := hv_to_uts (float_of_tenths n) in
  (69.0 <=? uts) && (uts <=? 4140.0) &&
  forallb (fun f => (37.95 <=? uts * f) && (uts * f <=? 3726.0) && (uts * f <? uts))
          yield_fractions.

(** From [n / 10] to [(n + 1) / 10] the estimate grows and neither the
    tensile nor the yield strength falls. *)
Definition pipeline_step_check (n : Z) : bool :=
  let a := float_of_tenths n in
  let b := float_of_tenths (n + 1) in
  (a <? b) && (hv_to_uts a <=? hv_to_uts b) &&
  forallb (fun f => hv_to_uts a * f <=? hv_to_uts b * f) yield_fractions.
(** Two floats that are equal or both zeros (of any sign). *)
Definition same_or_zeros (x y : float) : Prop :=
  x = y \/ (exists s s', Prim2SF x = S754_zero s /\ Prim2SF y = S754_zero s').

(** The field pair entered last under name [k], if any. *)
Definition last_field (fields : list (string * float)) (k : string) : option (string * float) :=
  find (fun field => String.eqb (fst field) k) (rev fields).

(** The least magnitude of an integer that [float] cannot convert: half
    way from the largest float, [2^1024 - 2^971], to [2^1024]. *)
Definition int_overflow_bound : Z := (2 ^ 1024 - 2 ^ 970)%Z.

(** An item of a row whose conversion raises: a column other than
    "matrix" and "heat" with a text that [float] rejects or an integer
    too large for a float. *)
Definition bad_item (float_of_text : string -> option float) (item : string * cell) : bool :=
  negb (existsb (String.eqb (fst item)) ["matrix"; "heat"]) &&
  match snd item with
  | Text s => match float_of_text s with None => true | Some _ => false end
  | Number _ => false
  | Integer z => (int_overflow_bound <=? Z.abs z)%Z
  end.

(** A float, or an integer that a float can hold. *)
Definition is_number (v : cell) : bool :=
  match v with
  | Text _ => false
  | Number _ => true
  | Integer z => (Z.abs z <? int_overflow_bound)%Z
  end.


(** ** Proof automation *)

Ltac nodup_keys :=
  unfold keys; simpl;
  repeat (constructor; [simpl; intuition discriminate|]); constructor.

Ltac float_neq H :=
  apply (f_equal Prim2SF) in H; vm_compute in H; discriminate.

(** * The embedding on concrete inputs *)

(** [round(0.25, 1)] is a tie and goes to the even 0.2; the float 0.35 lies
    below the decimal 0.35 and goes to 0.3; 2.675 goes to 2.7. *)
Example round1_ties : py_round1 0.25 = 0.2 /\ py_round1 0.35 = 0.3 /\ py_round1 2.675 = 2.7.
Proof. repeat split. Qed.

(** The sign survives: [round(-0.04, 1)] is [-0.0]. *)
Example round1_negative_zero : Prim2SF (py_round1 (-0.04)) = S754_zero true.
Proof. reflexivity. Qed.

Example round1_special :
  py_round1 nan = nan /\ py_round1 infinity = infinity /\ py_round1 1e300 = 1e300.
Proof. repeat split. Qed.

(** [min] and [max] keep their first argument when the comparison with a
    NaN fails. *)
Example min_max_nan : py_min nan 1200.0 = nan /\ py_max 20.0 nan = 20.0.
Proof. split; reflexivity. Qed.

(** The sum runs from left to right: an overflow in a partial sum stays. *)
Example sum_left_to_right :
  py_sum [1e308; 1e308; -1e308] = infinity /\ py_sum [1e308; -1e308; 1e308] = 1e308.
Proof. split; reflexivity. Qed.

Example al_c1_annealing : estimate_hv "Al" [("C", 1.0)] "Annealing" = 88.0.
Proof. reflexivity. Qed.

Example nearest_tenths_tie :
  nearest_tenths 20.25 202 = true /\ nearest_tenths 20.25 203 = false /\
  spec_tenths 202 = 20.2.
Proof. repeat split; reflexivity. Qed.

Example float_of_large_int :
  py_float_of_int (2 ^ 53 + 1) = Some 9007199254740992.0 /\
  py_float_of_int (2 ^ 1024 - 2 ^ 970 - 1) = Some 0x1.fffffffffffffp+1023 /\
  py_float_of_int (2 ^ 1024 - 2 ^ 970) = None /\
  py_float_of_int (- 2 ^ 1024) = None.
Proof. repeat split; vm_compute; reflexivity. Qed.

(** * Rounding in binary64

    Facts about [SpecFloat.binary_round_aux], the rounding step shared by
    the multiplication, the division and the conversion from integers. *)

Section Rounding64.

Local Open Scope Z_scope.

Lemma digits2_pos_log2 (p : positive) :
  Zpos (digits2_pos p) = Z.log2 (Zpos p) + 1.
Proof.
  assert (H : forall q, digits2_pos q = Pos.size q).
  { induction q; simpl; congruence. }
  rewrite H. destruct p; simpl; lia.
Qed.

Lemma Zdigits2_log2 (m : Z) : 0 < m -> Zdigits2 m = Z.log2 m + 1.
Proof.
  destruct m; try lia. intros _. apply digits2_pos_log2.
Qed.

(** One step of [shr_1] halves a non-negative mantissa; [n] steps divide
    it by [2^n]. *)
Lemma shr_1_m (mrs : shr_record) :
  0 <= shr_m mrs -> shr_m (shr_1 mrs) = shr_m mrs / 2.
Proof.
  destruct mrs as [m r s]; simpl. intros Hm.
  destruct m as [|p|p]; try lia.
  - reflexivity.
  - destruct p; simpl.
    + rewrite Pos2Z.inj_xI. apply Z.div_unique with (r := 1); lia.
    + rewrite Pos2Z.inj_xO. apply Z.div_unique with (r := 0); lia.
    + reflexivity.
Qed.

Lemma pow2_xO (p : positive) : 2 ^ Zpos p~0 = 2 ^ Zpos p * 2 ^ Zpos p.
Proof. rewrite <- Z.pow_add_r by lia. f_equal. lia. Qed.

Lemma pow2_xI (p : positive) : 2 ^ Zpos p~1 = 2 * (2 ^ Zpos p * 2 ^ Zpos p).
Proof.
  rewrite <- Z.pow_add_r by lia. rewrite <- Z.pow_succ_r by lia. f_equal. lia.
Qed.

Lemma pow2_pos (n : Z) : 0 <= n -> 0 < 2 ^ n.
Proof. intros. apply Z.pow_pos_nonneg; lia. Qed.

Lemma iter_shr_1_m (p : positive) :
  forall mrs, 0 <= shr_m mrs ->
    shr_m (iter_pos shr_1 p mrs) = shr_m mrs / 2 ^ Zpos p.
Proof.
  induction p as [p IH|p IH|]; intros mrs Hm; simpl iter_pos.
  - assert (Hp : 0 < 2 ^ Zpos p) by (apply pow2_pos; lia).
    assert (H1 : 0 <= shr_m (shr_1 mrs)).
    { rewrite shr_1_m by assumption. apply Z.div_pos; lia. }
    assert (H2 : 0 <= shr_m (iter_pos shr_1 p (shr_1 mrs))).
    { rewrite IH by assumption. apply Z.div_pos; lia. }
    rewrite IH, IH, shr_1_m by assumption.
    rewrite !Z.div_div by lia.
    rewrite pow2_xI. reflexivity.
  - assert (Hp : 0 < 2 ^ Zpos p) by (apply pow2_pos; lia).
    assert (H2 : 0 <= shr_m (iter_pos shr_1 p mrs)).
    { rewrite IH by assumption. apply Z.div_pos; lia. }
    rewrite IH, IH by assumption.
    rewrite !Z.div_div by lia.
    rewrite pow2_xO. reflexivity.
  - rewrite shr_1_m by assumption. reflexivity.
Qed.

Lemma fexp64_eq (z : Z) : fexp64 z = Z.max (z - 53) (-1074).
Proof. reflexivity. Qed.

Lemma shr_record_of_loc_m (m : Z) (l : location) : shr_m (shr_record_of_loc m l) = m.
Proof. destruct l as [|[]]; reflexivity. Qed.

(** [shr_fexp] shifts the mantissa by [shift_of m e] places. *)
Lemma shr_fexp_spec (m e : Z) (l : location) :
  0 <= m ->
  shr_m (fst (shr_fexp prec emax m e l)) = m / 2 ^ shift_of m e /\
  snd (shr_fexp prec emax m e l) = e + shift_of m e.
Proof.
  intros Hm. unfold shr_fexp, shr, shift_of, fexp64.
  destruct (fexp prec emax (Zdigits2 m + e) - e) as [|p|p]; simpl fst; simpl snd.
  - rewrite shr_record_of_loc_m, Z.max_id. simpl. rewrite Z.div_1_r. lia.
  - rewrite iter_shr_1_m by (rewrite shr_record_of_loc_m; exact Hm).
    rewrite shr_record_of_loc_m.
    replace (Z.max 0 (Zpos p)) with (Zpos p) by lia. lia.
  - rewrite shr_record_of_loc_m.
    replace (Z.max 0 (Zneg p)) with 0 by lia. simpl. rewrite Z.div_1_r. lia.
Qed.

Lemma shr_fexp_noshift (m e : Z) (l : location) :
  shift_of m e = 0 -> shr_fexp prec emax m e l = (shr_record_of_loc m l, e).
Proof.
  unfold shr_fexp, shr, shift_of, fexp64.
  destruct (fexp prec emax (Zdigits2 m + e) - e) as [|p|p]; intros H; try reflexivity.
  lia.
Qed.

Lemma round_nearest_even_range (m : Z) (l : location) :
  m <= round_nearest_even m l <= m + 1.
Proof.
  destruct l as [|[]]; simpl; try lia. destruct (Z.even m); lia.
Qed.

(** Mantissa and exponent of [binary_round_aux s m e l]: the mantissa is
    shifted, rounded to [m2] (the shifted mantissa or its successor), and
    shifted once more in case the rounding carried. *)
Lemma binary_round_aux_spec (s : bool) (m e : Z) (l : location) :
  0 <= m ->
  exists m2,
    m / 2 ^ shift_of m e <= m2 <= m / 2 ^ shift_of m e + 1 /\
    (shift_of m e = 0 -> l = loc_Exact -> m2 = m) /\
    binary_round_aux prec emax s m e l =
      sf_build s (m2 / 2 ^ shift_of m2 (e + shift_of m e))
                 (e + shift_of m e + shift_of m2 (e + shift_of m e)).
Proof.
  intros Hm. unfold binary_round_aux.
  destruct (shr_fexp_spec m e l Hm) as [H1 H2].
  destruct (shr_fexp prec emax m e l) as [mrs' e'] eqn:E1. simpl in H1, H2.
  set (m2 := round_nearest_even (shr_m mrs') (loc_of_shr_record mrs')).
  assert (Hr : shr_m mrs' <= m2 <= shr_m mrs' + 1) by apply round_nearest_even_range.
  assert (Hm1 : 0 <= shr_m mrs').
  { rewrite H1. apply Z.div_pos; [lia|]. apply pow2_pos. unfold shift_of; lia. }
  assert (Hm2 : 0 <= m2) by lia.
  destruct (shr_fexp_spec m2 e' loc_Exact Hm2) as [H3 H4].
  destruct (shr_fexp prec emax m2 e' loc_Exact) as [mrs'' e''] eqn:E2. simpl in H3, H4.
  exists m2. split; [rewrite <- H1; exact Hr|]. split.
  - intros Hk Hl. subst l. rewrite shr_fexp_noshift in E1 by assumption.
    inversion E1; subst mrs'. subst m2. reflexivity.
  - subst e'. rewrite H3, H4. unfold sf_build.
    destruct (m2 / 2 ^ shift_of m2 (e + shift_of m e)); reflexivity.
Qed.

(** Order on positive finite values: exponents first, then mantissas. *)

Lemma SFleb_finite_pos (m1 : positive) (e1 : Z) (m2 : positive) (e2 : Z) :
  e1 < e2 \/ (e1 = e2 /\ Zpos m1 <= Zpos m2) ->
  SFleb (S754_finite false m1 e1) (S754_finite false m2 e2) = true.
Proof.
  intros H. unfold SFleb, SFcompare.
  destruct (Z.compare_spec e1 e2) as [He|He|He]; try reflexivity; try lia.
  destruct H as [H|[_ H]]; [lia|].
  change (Pos.compare_cont Eq m1 m2) with (Pos.compare m1 m2).
  destruct (Pos.compare_spec m1 m2) as [Hc|Hc|Hc]; try reflexivity. lia.
Qed.

Lemma SFleb_build_pos (m e : Z) (mx : positive) (ex : Z) :
  0 <= m -> ex <= emax - prec ->
  e < ex \/ (e = ex /\ m <= Zpos mx) ->
  SFleb (sf_build false m e) (S754_finite false mx ex) = true.
Proof.
  intros Hm Hex H. unfold sf_build. destruct m as [|p|p]; try lia.
  - reflexivity.
  - replace (e <=? emax - prec) with true by (symmetry; apply Z.leb_le; lia).
    apply SFleb_finite_pos. exact H.
Qed.

Lemma bounded_inv (m : positive) (e : Z) :
  bounded prec emax m e = true ->
  fexp64 (Zpos (digits2_pos m) + e) = e /\ e <= emax - prec.
Proof.
  unfold bounded, canonical_mantissa. intros H.
  apply andb_prop in H. destruct H as [H1 H2].
  apply Z.eqb_eq in H1. apply Z.leb_le in H2. split; assumption.
Qed.

Lemma log2_bounds (m : Z) : 0 < m -> 2 ^ Z.log2 m <= m < 2 ^ (Z.log2 m + 1).
Proof. intros H. replace (Z.log2 m + 1) with (Z.succ (Z.log2 m)) by lia. apply Z.log2_spec. exact H. Qed.

(** Multiplying a non-negative float by a fraction in [[1/2, 1)] never
    increases it. *)
Lemma SFmul_fraction_le (mx : positive) (ex : Z) (mf : positive) :
  bounded prec emax mx ex = true ->
  2 ^ 52 <= Zpos mf < 2 ^ 53 ->
  SFleb (SFmul prec emax (S754_finite false mx ex) (S754_finite false mf (-53)))
        (S754_finite false mx ex) = true.
Proof.
  intros Hb Hf. apply bounded_inv in Hb. destruct Hb as [Hc Hex].
  unfold SFmul. simpl xorb. rewrite Pos2Z.inj_mul.
  set (m := Zpos mx * Zpos mf).
  assert (Hm : 0 < m) by (unfold m; lia).
  destruct (binary_round_aux_spec false m (ex + -53) loc_Exact) as (m2 & Hm2 & _ & ->); [lia|].
  rewrite digits2_pos_log2 in Hc.
  set (lx := Z.log2 (Zpos mx)) in *.
  assert (Hlx : 2 ^ lx <= Zpos mx < 2 ^ (lx + 1)) by (apply log2_bounds; lia).
  assert (Hlx0 : 0 <= lx) by apply Z.log2_nonneg.
  (* digits of the product *)
  assert (Hlm : lx + 52 <= Z.log2 m <= lx + 53).
  { split.
    - apply Z.log2_le_pow2; [lia|]. rewrite Z.pow_add_r by lia. unfold m. nia.
    - assert (Z.log2 m < lx + 54); [|lia].
      apply Z.log2_lt_pow2; [lia|].
      replace (lx + 54) with ((lx + 1) + 53) by lia.
      rewrite Z.pow_add_r by lia. unfold m. nia. }
  set (F := fexp64 (Zdigits2 m + (ex + -53))) in *.
  assert (HF : ex - 1 <= F <= ex).
  { unfold F. rewrite Zdigits2_log2 by lia. rewrite fexp64_eq in *. lia. }
  assert (Hk1 : shift_of m (ex + -53) = F - ex + 53).
  { unfold shift_of. fold F. lia. }
  rewrite Hk1 in *.
  replace (ex + -53 + (F - ex + 53)) with F in * by lia.
  set (X := Zpos mx * 2 ^ (ex - F)).
  assert (HX : m < X * 2 ^ (F - ex + 53)).
  { unfold X. rewrite <- Z.mul_assoc, <- Z.pow_add_r by lia.
    replace (ex - F + (F - ex + 53)) with 53 by lia. unfold m. nia. }
  assert (Hp1 : 0 < 2 ^ (F - ex + 53)) by (apply pow2_pos; lia).
  assert (Hm1 : m / 2 ^ (F - ex + 53) < X).
  { apply Z.div_lt_upper_bound; lia. }
  assert (H0 : 0 <= m / 2 ^ (F - ex + 53)) by (apply Z.div_pos; lia).
  assert (Hm2X : 0 <= m2 <= X) by lia.
  assert (Hp2 : 0 < 2 ^ (ex - F)) by (apply pow2_pos; lia).
  (* second normalisation *)
  assert (Hk2 : F + shift_of m2 F <= ex).
  { unfold shift_of. destruct (Z.eq_dec m2 0) as [->|Hnz].
    - simpl Zdigits2. rewrite fexp64_eq in *. lia.
    - rewrite Zdigits2_log2 by lia.
      assert (Z.log2 m2 <= lx + (ex - F)).
      { assert (Z.log2 m2 < lx + 1 + (ex - F)); [|lia].
        apply Z.log2_lt_pow2; [lia|].
        rewrite Z.pow_add_r by lia. unfold X in Hm2X. nia. }
      rewrite fexp64_eq in *. lia. }
  assert (Hk2' : 0 <= shift_of m2 F) by (unfold shift_of; lia).
  apply SFleb_build_pos.
  - apply Z.div_pos; [lia|]. apply pow2_pos; lia.
  - exact Hex.
  - destruct (Z.eq_dec (F + shift_of m2 F) ex) as [He|He]; [right|left; lia].
    split; [exact He|].
    replace (shift_of m2 F) with (ex - F) by lia.
    apply Z.div_le_upper_bound; [lia|]. unfold X in Hm2X. lia.
Qed.

End Rounding64.

(** * Tenths as floats *)

Section TenthsToFloat.

Local Open Scope Z_scope.

(** [shl_align] lowers the exponent to [e'] and scales the mantissa. *)
Lemma shl_align_spec (p : positive) (e e' : Z) :
  e' <= e ->
  Zpos (fst (shl_align p e e')) = Zpos p * 2 ^ (e - e') /\
  snd (shl_align p e e') = e'.
Proof.
  intros H. unfold shl_align.
  destruct (e' - e) as [|d|d] eqn:E; simpl fst; simpl snd; try lia.
  - replace (e - e') with 0 by lia. simpl. lia.
  - change (Pos.iter xO p d) with (shift_pos d p).
    replace (e - e') with (Zpos d) by lia.
    rewrite shift_pos_correct. rewrite Z.pow_pos_fold. lia.
Qed.

Lemma log2_shift (n k : Z) : 0 < n -> 0 <= k -> Z.log2 (n * 2 ^ k) = Z.log2 n + k.
Proof. intros Hn Hk. rewrite Z.log2_mul_pow2 by lia. lia. Qed.

Lemma shift_of_canonical (m e : Z) :
  0 < m -> fexp64 (Z.log2 m + 1 + e) = e -> shift_of m e = 0.
Proof.
  intros Hm H. unfold shift_of. rewrite Zdigits2_log2 by lia. lia.
Qed.

(** Conversion of an integer below [2^53] is exact. *)
Lemma binary_normalize_exact (n : Z) :
  0 < n < 2 ^ 53 ->
  exists mA, binary_normalize prec emax n 0 false = S754_finite false mA (Z.log2 n - 52)
             /\ Zpos mA = n * 2 ^ (52 - Z.log2 n).
Proof.
  intros Hn. destruct n as [|p|p]; try lia.
  unfold binary_normalize, binary_round.
  assert (Hl : 0 <= Z.log2 (Zpos p) < 53).
  { split; [apply Z.log2_nonneg|]. apply Z.log2_lt_pow2; lia. }
  assert (Hf : fexp prec emax (Zpos (digits2_pos p) + 0) = Z.log2 (Zpos p) - 52).
  { rewrite digits2_pos_log2. change (fexp prec emax) with fexp64. rewrite fexp64_eq. lia. }
  rewrite Hf.
  destruct (shl_align_spec p 0 (Z.log2 (Zpos p) - 52)) as [H1 H2]; [lia|].
  destruct (shl_align p 0 (Z.log2 (Zpos p) - 52)) as [mz ez]. cbn [fst snd] in H1, H2. subst ez.
  replace (0 - (Z.log2 (Zpos p) - 52)) with (52 - Z.log2 (Zpos p)) in H1 by lia.
  assert (Hlz : Z.log2 (Zpos mz) = 52).
  { rewrite H1, log2_shift by lia. lia. }
  assert (Hs : shift_of (Zpos mz) (Z.log2 (Zpos p) - 52) = 0).
  { apply shift_of_canonical; [lia|]. rewrite Hlz, fexp64_eq. lia. }
  destruct (binary_round_aux_spec false (Zpos mz) (Z.log2 (Zpos p) - 52) loc_Exact)
    as (m2 & _ & Hex & ->); [lia|].
  rewrite (Hex Hs eq_refl). rewrite Hs, Z.add_0_r, Hs. simpl (2 ^ 0). rewrite Z.div_1_r.
  exists mz. split; [|exact H1].
  unfold sf_build. rewrite Z.add_0_r.
  replace (Z.log2 (Zpos p) - 52 <=? emax - prec) with true; [reflexivity|].
  symmetry. apply Z.leb_le. change (emax - prec) with 971. lia.
Qed.

Lemma Prim2SF_of_int (n : Z) :
  0 < n < 2 ^ 53 ->
  exists mA, Prim2SF (of_uint63 (Uint63.of_Z n)) = S754_finite false mA (Z.log2 n - 52)
             /\ Zpos mA = n * 2 ^ (52 - Z.log2 n).
Proof.
  intros Hn. rewrite of_uint63_spec, Uint63.of_Z_spec.
  rewrite Z.mod_small.
  - apply binary_normalize_exact. exact Hn.
  - change wB with (2 ^ 63). lia.
Qed.

Local Open Scope float_scope.

Lemma Prim2SF_ten : Prim2SF 10 = S754_finite false 5629499534213120 (-49).
Proof. reflexivity. Qed.

Local Open Scope Z_scope.

(** The quotient of a positive integer below [2^53] by ten, before the
    final rounding. *)
Lemma float_of_tenths_pos (n : Z) :
  0 < n < 2 ^ 53 ->
  exists q l,
    Prim2SF (float_of_tenths n) = binary_round_aux prec emax false q (Z.log2 n - 56) l /\
    2 ^ 52 <= q < 2 ^ 54.
Proof.
  intros Hn. unfold float_of_tenths.
  rewrite div_spec, Prim2SF_ten.
  destruct (Prim2SF_of_int n Hn) as (mA & -> & HmA).
  assert (Hl : 0 <= Z.log2 n < 53).
  { split; [apply Z.log2_nonneg|]. apply Z.log2_lt_pow2; lia. }
  assert (HlA : Z.log2 (Zpos mA) = 52).
  { rewrite HmA, log2_shift by lia. lia. }
  assert (HbA : 2 ^ 52 <= Zpos mA < 2 ^ 53).
  { generalize (log2_bounds (Zpos mA) ltac:(lia)). rewrite HlA. simpl (52 + 1). lia. }
  unfold SF64div, SFdiv, SFdiv_core_binary. cbn [xorb].
  rewrite (Zdigits2_log2 (Zpos mA)) by lia. rewrite HlA.
  change (Zdigits2 5629499534213120) with 53.
  change (fexp prec emax) with fexp64. rewrite fexp64_eq.
  set (eA := Z.log2 n - 52).
  replace (Z.min (Z.max (52 + 1 + eA - (53 + -49) - 53) (-1074)) (eA - -49))
    with (eA - 4) by lia.
  replace (eA - -49 - (eA - 4)) with 53 by lia.
  rewrite Z.shiftl_mul_pow2 by lia.
  generalize (Z_div_mod (Zpos mA * 2 ^ 53) 5629499534213120 ltac:(lia)).
  destruct (Z.div_eucl (Zpos mA * 2 ^ 53) 5629499534213120) as [q r].
  intros [Hq Hr].
  exists q, (new_location 5629499534213120 r). split.
  - unfold eA. f_equal. lia.
  - lia.
Qed.

(** Rounding a mantissa of 53 or 54 bits in the normal range gives a
    non-zero result whose exponent is not below the one it started from. *)
Lemma sf_build_round_normal (q e : Z) (l : location) :
  2 ^ 52 <= q < 2 ^ 54 -> -1074 <= e ->
  exists m e', binary_round_aux prec emax false q e l = sf_build false m e' /\
               0 < m /\ e <= e'.
Proof.
  intros Hq He.
  destruct (binary_round_aux_spec false q e l) as (m2 & Hm2 & _ & ->); [lia|].
  assert (Hlq : 52 <= Z.log2 q < 54).
  { split; [apply Z.log2_le_pow2; lia | apply Z.log2_lt_pow2; lia]. }
  assert (Hs1 : shift_of q e = Z.log2 q - 52).
  { unfold shift_of. rewrite Zdigits2_log2, fexp64_eq by lia. lia. }
  rewrite Hs1 in *.
  assert (Hq1 : 2 ^ 52 <= q / 2 ^ (Z.log2 q - 52) < 2 ^ 53).
  { generalize (log2_bounds q ltac:(lia)). intros Hb.
    assert (Hp : 0 < 2 ^ (Z.log2 q - 52)) by (apply pow2_pos; lia).
    split.
    - apply Z.div_le_lower_bound; [lia|].
      rewrite Z.mul_comm, <- Z.pow_add_r by lia.
      replace (52 + (Z.log2 q - 52)) with (Z.log2 q) by lia. lia.
    - apply Z.div_lt_upper_bound; [lia|].
      rewrite <- Z.pow_add_r by lia.
      replace (Z.log2 q - 52 + 53) with (Z.log2 q + 1) by lia. lia. }
  assert (Hm2b : 2 ^ 52 <= m2 <= 2 ^ 53) by lia.
  assert (Hl2 : 52 <= Z.log2 m2 <= 53).
  { split; [apply Z.log2_le_pow2; lia|].
    assert (Z.log2 m2 < 54); [|lia]. apply Z.log2_lt_pow2; lia. }
  set (e1 := e + (Z.log2 q - 52)).
  assert (Hs2 : shift_of m2 e1 = Z.log2 m2 - 52).
  { unfold shift_of. rewrite Zdigits2_log2, fexp64_eq by lia. unfold e1. lia. }
  rewrite Hs2.
  eexists _, _. split; [reflexivity|]. split; [|unfold e1; lia].
  assert (Hp : 0 < 2 ^ (Z.log2 m2 - 52)) by (apply pow2_pos; lia).
  apply Z.div_str_pos. split; [lia|].
  assert (2 ^ (Z.log2 m2 - 52) <= 2 ^ 1) by (apply Z.pow_le_mono_r; lia).
  lia.
Qed.

(** Shape of [n / 10] for every [n] the rounding can produce. *)
Lemma float_of_tenths_shape (n : Z) :
  0 <= n < 2 ^ 53 ->
  exists m e, Prim2SF (float_of_tenths n) = sf_build false m e /\
              (0 < n -> 0 < m /\ Z.log2 n - 56 <= e).
Proof.
  intros Hn. destruct (Z.eq_dec n 0) as [->|Hnz].
  - exists 0, 0. split; [reflexivity|]. lia.
  - destruct (float_of_tenths_pos n ltac:(lia)) as (q & l & -> & Hq).
    assert (Hl : 0 <= Z.log2 n) by apply Z.log2_nonneg.
    destruct (sf_build_round_normal q (Z.log2 n - 56) l Hq ltac:(lia)) as (m & e' & -> & Hm & He).
    exists m, e'. split; [reflexivity|]. intros _.
    split; [exact Hm|exact He].
Qed.

End TenthsToFloat.

(** * Integer rounding, valid floats and their order *)

Section Order64.

Local Open Scope Z_scope.

(** ** Rounding to an integer *)

Lemma round_half_even_range (a b : Z) :
  0 < b -> a / b <= round_half_even a b <= a / b + 1.
Proof.
  intros Hb. unfold round_half_even.
  destruct (2 * (a mod b) ?= b); try lia. destruct (Z.even (a / b)); lia.
Qed.

Lemma round_half_even_ge (a b T : Z) :
  0 < b -> T * b <= a -> T <= round_half_even a b.
Proof.
  intros Hb H. generalize (round_half_even_range a b Hb).
  assert (T <= a / b) by (apply Z.div_le_lower_bound; lia). lia.
Qed.

Lemma round_half_even_le (a b T : Z) :
  0 < b -> a <= T * b -> round_half_even a b <= T.
Proof.
  intros Hb H. unfold round_half_even.
  generalize (Z.div_mod a b ltac:(lia)) (Z.mod_pos_bound a b Hb). intros Hd Hr.
  assert (Hq : a / b <= T) by (apply Z.div_le_upper_bound; lia).
  destruct (Z.eq_dec (a / b) T) as [He|He].
  - assert (a mod b = 0) by nia.
    replace (2 * (a mod b) ?= b) with Lt; [lia|].
    symmetry. apply Z.compare_lt_iff. lia.
  - destruct (2 * (a mod b) ?= b); try lia. destruct (Z.even (a / b)); lia.
Qed.

(** ** Valid finite floats *)

(** The mantissa of a float has at most 53 bits, and exactly 53 above the
    subnormal exponent. *)
Lemma valid_finite_inv (x : float) (s : bool) (m : positive) (e : Z) :
  Prim2SF x = S754_finite s m e ->
  Zpos m < 2 ^ 53 /\ (-1074 < e -> 2 ^ 52 <= Zpos m).
Proof.
  intros Hx. generalize (Prim2SF_valid x). rewrite Hx. simpl valid_binary.
  intros Hb. apply bounded_inv in Hb. destruct Hb as [Hc _].
  rewrite digits2_pos_log2, fexp64_eq in Hc.
  generalize (log2_bounds (Zpos m) ltac:(lia)). intros Hl.
  assert (H0 : 0 <= Z.log2 (Zpos m)) by apply Z.log2_nonneg.
  split.
  - assert (Z.log2 (Zpos m) + 1 <= 53) by lia.
    assert (2 ^ (Z.log2 (Zpos m) + 1) <= 2 ^ 53) by (apply Z.pow_le_mono_r; lia). lia.
  - intros He. assert (Z.log2 (Zpos m) = 52) by lia.
    replace 52 with (Z.log2 (Zpos m)) by assumption. lia.
Qed.

Lemma SFltb_pos_finite_inv (mt : positive) (et : Z) (s : bool) (m : positive) (e : Z) :
  SFltb (S754_finite false mt et) (S754_finite s m e) = true ->
  s = false /\ (et < e \/ (et = e /\ Zpos mt < Zpos m)).
Proof.
  unfold SFltb, SFcompare. destruct s; [discriminate|].
  intros H. split; [reflexivity|].
  destruct (Z.compare_spec et e) as [He|He|He]; try discriminate; [right|left; exact He].
  split; [exact He|].
  change (Pos.compare_cont Eq mt m) with (Pos.compare mt m) in H.
  destruct (Pos.compare_spec mt m); try discriminate. lia.
Qed.

Lemma SFltb_pos_finite_false_inv (mt : positive) (et : Z) (m : positive) (e : Z) :
  SFltb (S754_finite false mt et) (S754_finite false m e) = false ->
  e < et \/ (e = et /\ Zpos m <= Zpos mt).
Proof.
  unfold SFltb, SFcompare. intros H.
  destruct (Z.compare_spec et e) as [He|He|He]; try discriminate; [right|left; exact He].
  split; [symmetry; exact He|].
  change (Pos.compare_cont Eq mt m) with (Pos.compare mt m) in H.
  destruct (Pos.compare_spec mt m); try discriminate; lia.
Qed.

Lemma SFltb_SFleb (x y : spec_float) : SFltb x y = true -> SFleb x y = true.
Proof. unfold SFltb, SFleb. destruct (SFcompare x y) as [[]|]; congruence. Qed.

Lemma SFleb_pos_build (mt : positive) (et : Z) (m e : Z) :
  0 < m -> et < e -> SFleb (S754_finite false mt et) (sf_build false m e) = true.
Proof.
  intros Hm He. unfold sf_build. destruct m as [|p|p]; try lia.
  destruct (e <=? emax - prec).
  - unfold SFleb, SFcompare.
    destruct (Z.compare_spec et e); try reflexivity; lia.
  - reflexivity.
Qed.

Lemma SFltb_pos_opp_build (mt : positive) (et : Z) (m e : Z) :
  SFltb (S754_finite false mt et) (SFopp (sf_build false m e)) = false.
Proof.
  unfold sf_build. destruct m as [|p|p]; try reflexivity.
  destruct (e <=? emax - prec); reflexivity.
Qed.

(** ** Enumeration of an integer range *)

Lemma all_from_spec (f : Z -> bool) (count : nat) :
  forall lo, all_from f count lo = true ->
    forall z, lo <= z < lo + Z.of_nat count -> f z = true.
Proof.
  induction count as [|k IH]; intros lo H z Hz.
  - simpl in Hz. lia.
  - cbn [all_from] in H. apply andb_prop in H. destruct H as [H1 H2].
    destruct (Z.eq_dec z lo) as [->|Hne]; [exact H1|].
    apply (IH (lo + 1) H2). lia.
Qed.

End Order64.

(** * [round(x, 1)] against a threshold *)

Section OneDecimal.

Local Open Scope Z_scope.

(** The branch of [py_round1] that returns [x] unchanged is taken only
    at exponents from [-3] on, where floats are multiples of 1/8. *)
Lemma round1_identity_branch (x : float) (s : bool) (m : positive) (e : Z) :
  Prim2SF x = S754_finite s m e -> 2 ^ 53 <= decimal_tenths m e -> -3 <= e.
Proof.
  intros Hx Hn. destruct (valid_finite_inv x s m e Hx) as [Hm _].
  destruct (Z.le_gt_cases (-3) e) as [He|He]; [exact He|exfalso].
  unfold decimal_tenths in Hn.
  replace (0 <=? e) with false in Hn by (symmetry; apply Z.leb_gt; lia).
  assert (Hb : 0 < 2 ^ (- e)) by (apply pow2_pos; lia).
  assert (Hp : 2 ^ 4 <= 2 ^ (- e)) by (apply Z.pow_le_mono_r; lia).
  assert (Hle : round_half_even (10 * Zpos m) (2 ^ (- e)) <= 2 ^ 53 - 1); [|lia].
  apply round_half_even_le; [exact Hb|].
  assert ((2 ^ 53 - 1) * 2 ^ 4 <= (2 ^ 53 - 1) * 2 ^ (- e)).
  { apply Z.mul_le_mono_nonneg_l; lia. }
  lia.
Qed.

(** A threshold [t = T / 10] that passes [threshold_ok]. *)
Section Threshold.

Variable t : float.
Variables T N : Z.
Hypothesis Hok : threshold_ok t T N = true.

Lemma threshold_inv :
  exists mt et,
    Prim2SF t = S754_finite false mt et /\
    -1074 <= et < 0 /\
    et < Z.log2 N - 56 /\
    N <= 2 ^ 53 /\
    10 * Zpos mt = T * 2 ^ (- et) /\
    T * 2 ^ (- et - 1) <= 10 * 2 ^ 52 /\
    10 * 2 ^ 53 <= (T - 1) * 2 ^ (- et + 1) /\
    0 < T < N /\
    forall n, 0 <= n < N -> threshold_check t T n = true.
Proof.
  unfold threshold_ok in Hok.
  destruct (Prim2SF t) as [| | |s mt et]; try discriminate.
  destruct s; try discriminate.
  repeat (apply andb_prop in Hok; destruct Hok as [Hok ?]).
  exists mt, et. split; [reflexivity|].
  repeat match goal with
         | H : (_ <=? _) = true |- _ => apply Z.leb_le in H
         | H : (_ <? _) = true |- _ => apply Z.ltb_lt in H
         | H : (_ =? _) = true |- _ => apply Z.eqb_eq in H
         end.
  repeat split; try assumption.
  intros n Hn. eapply all_from_spec; [eassumption|]. lia.
Qed.

(** Number of tenths of a value above the threshold. *)
Lemma tenths_above (mt : positive) (et : Z) (x : float) (m : positive) (e : Z) :
  -1074 <= et < 0 ->
  10 * Zpos mt = T * 2 ^ (- et) ->
  T * 2 ^ (- et - 1) <= 10 * 2 ^ 52 ->
  0 < T < 2 ^ 53 ->
  Prim2SF x = S754_finite false m e ->
  et < e \/ (et = e /\ Zpos mt < Zpos m) ->
  T <= decimal_tenths m e.
Proof.
  intros Het HT Hhi HT15 Hx Hc.
  destruct (valid_finite_inv x false m e Hx) as [Hm1 Hm2].
  unfold decimal_tenths. destruct (Z.leb_spec 0 e) as [He|He].
  - assert (2 ^ 52 <= Zpos m) by (apply Hm2; lia).
    assert (1 <= 2 ^ e) by (generalize (pow2_pos e He); lia).
    assert (Zpos m <= Zpos m * 2 ^ e) by nia.
    lia.
  - assert (Hb : 0 < 2 ^ (- e)) by (apply pow2_pos; lia).
    apply round_half_even_ge; [exact Hb|].
    destruct Hc as [Hc|[Hc1 Hc2]].
    + assert (2 ^ 52 <= Zpos m) by (apply Hm2; lia).
      assert (2 ^ (- e) <= 2 ^ (- et - 1)) by (apply Z.pow_le_mono_r; lia).
      assert (T * 2 ^ (- e) <= T * 2 ^ (- et - 1)).
      { apply Z.mul_le_mono_nonneg_l; lia. }
      lia.
    + subst e. lia.
Qed.

Lemma tenths_not_above (mt : positive) (et : Z) (x : float) (m : positive) (e : Z) :
  -1074 <= et < 0 ->
  10 * Zpos mt = T * 2 ^ (- et) ->
  10 * 2 ^ 53 <= (T - 1) * 2 ^ (- et + 1) ->
  0 < T ->
  Prim2SF x = S754_finite false m e ->
  e < et \/ (e = et /\ Zpos m <= Zpos mt) ->
  decimal_tenths m e <= T.
Proof.
  intros Het HT Hlo HT15 Hx Hc.
  destruct (valid_finite_inv x false m e Hx) as [Hm1 _].
  unfold decimal_tenths. destruct (Z.leb_spec 0 e) as [He|He]; [lia|].
  assert (Hb : 0 < 2 ^ (- e)) by (apply pow2_pos; lia).
  apply round_half_even_le; [exact Hb|].
  destruct Hc as [Hc|[Hc1 Hc2]].
  - assert (2 ^ (- et + 1) <= 2 ^ (- e)) by (apply Z.pow_le_mono_r; lia).
    assert ((T - 1) * 2 ^ (- et + 1) <= (T - 1) * 2 ^ (- e)).
    { apply Z.mul_le_mono_nonneg_l; lia. }
    lia.
  - subst e. lia.
Qed.

(** [round(x, 1)] of a value above the threshold is not below it. *)
Lemma round1_above (x : float) :
  PrimFloat.ltb t x = true -> PrimFloat.leb t (py_round1 x) = true.
Proof.
  destruct threshold_inv as (mt & et & Ht & Het & HetN & HN & HT & Hhi & Hlo & HT15 & Hen).
  intros H. assert (Hle : PrimFloat.leb t x = true).
  { rewrite leb_spec. apply SFltb_SFleb. rewrite <- ltb_spec. exact H. }
  unfold py_round1. rewrite ltb_spec, Ht in H.
  destruct (Prim2SF x) as [s|s| |s m e] eqn:Hx; try exact Hle.
  apply SFltb_pos_finite_inv in H. destruct H as [-> Hc].
  cbv zeta. destruct (Z.ltb_spec (decimal_tenths m e) (2 ^ 53)) as [Hn|Hn]; [|exact Hle].
  assert (HTn : T <= decimal_tenths m e).
  { eapply tenths_above; try eassumption; lia. }
  set (n := decimal_tenths m e) in *.
  destruct (Z.lt_ge_cases n N) as [Hs|Hs].
  - generalize (Hen n ltac:(lia)). unfold threshold_check.
    replace (T <=? n) with true by (symmetry; apply Z.leb_le; lia).
    intros Hch. apply andb_prop in Hch. apply Hch.
  - destruct (float_of_tenths_shape n ltac:(lia)) as (m' & e' & Hsh & Hbig).
    destruct (Hbig ltac:(lia)) as [Hm' He'].
    assert (Z.log2 N <= Z.log2 n) by (apply Z.log2_le_mono; lia).
    rewrite leb_spec, Ht, Hsh. apply SFleb_pos_build; lia.
Qed.

(** [round(x, 1)] of a value not above the threshold is not above it. *)
Lemma round1_not_above (x : float) :
  PrimFloat.ltb t x = false -> PrimFloat.ltb t (py_round1 x) = false.
Proof.
  destruct threshold_inv as (mt & et & Ht & Het & HetN & HN & HT & Hhi & Hlo & HT15 & Hen).
  intros H. unfold py_round1.
  destruct (Prim2SF x) as [s|s| |s m e] eqn:Hx; try exact H.
  cbv zeta. destruct (Z.ltb_spec (decimal_tenths m e) (2 ^ 53)) as [Hn|Hn]; [|exact H].
  assert (Hn0 : 0 <= decimal_tenths m e).
  { unfold decimal_tenths. destruct (0 <=? e) eqn:E.
    - apply Z.leb_le in E. generalize (pow2_pos e E). nia.
    - apply Z.leb_gt in E.
      generalize (round_half_even_range (10 * Zpos m) (2 ^ (- e)) ltac:(apply pow2_pos; lia)).
      assert (0 <= 10 * Zpos m / 2 ^ (- e)).
      { apply Z.div_pos; [lia|]. apply pow2_pos; lia. }
      lia. }
  set (n := decimal_tenths m e) in *.
  destruct s.
  - destruct (float_of_tenths_shape n ltac:(lia)) as (m' & e' & Hsh & _).
    rewrite ltb_spec, opp_spec, Ht, Hsh. apply SFltb_pos_opp_build.
  - rewrite ltb_spec, Ht, Hx in H.
    apply SFltb_pos_finite_false_inv in H.
    assert (HTn : n <= T).
    { eapply tenths_not_above; try eassumption; lia. }
    generalize (Hen n ltac:(lia)). unfold threshold_check.
    replace (n <=? T) with true by (symmetry; apply Z.leb_le; lia).
    intros Hch. apply andb_prop in Hch. destruct Hch as [_ Hch].
    apply negb_true_iff in Hch. exact Hch.
Qed.

End Threshold.

Lemma threshold_ok_20 : threshold_ok 20 200 (2 ^ 9) = true.
Proof. vm_compute. reflexivity. Qed.

Lemma threshold_ok_1200 : threshold_ok 1200 12000 (2 ^ 15) = true.
Proof. vm_compute. reflexivity. Qed.

End OneDecimal.

(** * The clamp and its interplay with rounding *)

Section Clamp.

Local Open Scope Z_scope.

(** ** Order facts on floats *)

(** Swapping the operands of a comparison reverses its outcome. *)
Lemma SFcompare_antisym (x y : spec_float) (c : comparison) :
  SFcompare x y = Some c -> SFcompare y x = Some (CompOpp c).
Proof.
  destruct x as [sx|sx|  |sx mx ex], y as [sy|sy|  |sy my ey]; simpl;
    try discriminate;
    try (intros H; injection H as <-);
    try (destruct sx; reflexivity);
    try (destruct sy; reflexivity);
    try (destruct sx, sy; reflexivity).
  change (Pos.compare_cont Eq mx my) with (Pos.compare mx my).
  change (Pos.compare_cont Eq my mx) with (Pos.compare my mx).
  destruct sx, sy; try reflexivity;
    destruct (Z.compare_spec ex ey), (Z.compare_spec ey ex); try lia; try reflexivity;
    destruct (Pos.compare_spec mx my), (Pos.compare_spec my mx); try lia; reflexivity.
Qed.

Lemma SFcompare_finite_eq (s : bool) (m : positive) (e : Z) (y : spec_float) :
  SFcompare (S754_finite s m e) y = Some Eq -> y = S754_finite s m e.
Proof.
  destruct y as [sy|sy|  |sy my ey]; simpl; try discriminate.
  - destruct s; discriminate.
  - destruct sy; discriminate.
  - destruct s, sy; try discriminate.
    + destruct (Z.compare_spec e ey); try discriminate.
      change (Pos.compare_cont Eq m my) with (Pos.compare m my).
      destruct (Pos.compare_spec m my); try discriminate. congruence.
    + destruct (Z.compare_spec e ey); try discriminate.
      change (Pos.compare_cont Eq m my) with (Pos.compare m my).
      destruct (Pos.compare_spec m my); try discriminate. congruence.
Qed.

Local Open Scope float_scope.

Lemma ltb_leb (a b : float) : (a <? b) = true -> (a <=? b) = true.
Proof. rewrite ltb_spec, leb_spec. apply SFltb_SFleb. Qed.

Lemma ltb_asym (a b : float) : (a <? b) = true -> (b <? a) = false.
Proof.
  rewrite !ltb_spec. unfold SFltb.
  destruct (SFcompare (Prim2SF a) (Prim2SF b)) as [c|] eqn:E; try discriminate.
  rewrite (SFcompare_antisym _ _ _ E). destruct c; try discriminate. reflexivity.
Qed.

(** Among comparable floats, "not above" is "at most". *)
Lemma not_ltb_leb (a b c : float) :
  (c <? b) = true -> (a <=? a) = true -> (a <? b) = false -> (b <=? a) = true.
Proof.
  rewrite !ltb_spec, !leb_spec. unfold SFltb, SFleb. intros Hb Ha.
  destruct (SFcompare (Prim2SF a) (Prim2SF b)) as [k|] eqn:E.
  - rewrite (SFcompare_antisym _ _ _ E). destruct k; simpl; congruence.
  - exfalso.
    destruct (Prim2SF a) as [sa|sa| |sa ma ea]; try discriminate;
      destruct (Prim2SF b) as [sb|sb| |sb mb eb]; try discriminate;
      destruct (Prim2SF c) as [sc|sc| |sc mc ec]; discriminate.
Qed.

(** A float that is at least a finite [t] and not above it is [t]. *)
Lemma leb_not_ltb_eq (t r : float) :
  (exists s m e, Prim2SF t = S754_finite s m e) ->
  (t <=? r) = true -> (t <? r) = false -> r = t.
Proof.
  intros (s & m & e & Ht). rewrite leb_spec, ltb_spec, Ht. unfold SFleb, SFltb.
  destruct (SFcompare (S754_finite s m e) (Prim2SF r)) as [[]|] eqn:E; try discriminate.
  intros _ _. apply SFcompare_finite_eq in E.
  apply Prim2SF_inj. congruence.
Qed.

Lemma ltb_1200_20 (r : float) : (1200 <? r) = true -> (20 <? r) = true.
Proof.
  rewrite !ltb_spec.
  change (Prim2SF 1200) with (S754_finite false 5277655813324800 (-42)).
  change (Prim2SF 20) with (S754_finite false 5629499534213120 (-48)).
  destruct (Prim2SF r) as [s|s| |s m e]; try (destruct s); try discriminate; try reflexivity.
  intros H. apply SFltb_pos_finite_inv in H. destruct H as [_ H].
  unfold SFltb, SFcompare.
  destruct (Z.compare_spec (-48) e); try reflexivity; lia.
Qed.

(** ** The clamp [max(20.0, min(r, 1200.0))] *)

Lemma clamp_hv_high (r : float) : (1200 <=? r) = true -> clamp_hv r = 1200.
Proof.
  intros H. unfold clamp_hv, py_min. destruct (1200 <? r) eqn:E; [reflexivity|].
  rewrite (leb_not_ltb_eq 1200 r); [reflexivity| |exact H|exact E].
  eexists _, _, _. reflexivity.
Qed.

Lemma clamp_hv_low (r : float) : (20 <? r) = false -> clamp_hv r = 20.
Proof.
  intros H. unfold clamp_hv, py_min, py_max.
  destruct (1200 <? r) eqn:E.
  - apply ltb_1200_20 in E. congruence.
  - rewrite H. reflexivity.
Qed.

Lemma clamp_hv_mid (r : float) :
  (20 <? r) = true -> (1200 <? r) = false -> clamp_hv r = r.
Proof.
  intros H1 H2. unfold clamp_hv, py_min, py_max. rewrite H2, H1. reflexivity.
Qed.

Lemma clamp_hv_range (r : float) :
  (20 <=? clamp_hv r) = true /\ (clamp_hv r <=? 1200) = true.
Proof.
  destruct (20 <? r) eqn:E1.
  - destruct (1200 <? r) eqn:E2.
    + rewrite clamp_hv_high by (apply ltb_leb; exact E2). split; reflexivity.
    + rewrite clamp_hv_mid by assumption. split.
      * apply ltb_leb. exact E1.
      * apply (not_ltb_leb 1200 r 20); try assumption. reflexivity.
  - rewrite clamp_hv_low by assumption. split; reflexivity.
Qed.

Lemma round1_20 : py_round1 20 = 20.
Proof. reflexivity. Qed.

Lemma round1_1200 : py_round1 1200 = 1200.
Proof. reflexivity. Qed.

(** Rounding to one decimal commutes with the clamp. *)
Lemma clamp_hv_round1 (x : float) : clamp_hv (py_round1 x) = py_round1 (clamp_hv x).
Proof.
  destruct (1200 <? x) eqn:E2.
  - rewrite (clamp_hv_high x) by (apply ltb_leb; exact E2).
    rewrite round1_1200. apply clamp_hv_high.
    apply (round1_above 1200 12000 (2 ^ 15) threshold_ok_1200). exact E2.
  - destruct (20 <? x) eqn:E1.
    + rewrite (clamp_hv_mid x) by assumption.
      assert (H2 : (1200 <? py_round1 x) = false).
      { apply (round1_not_above 1200 12000 (2 ^ 15) threshold_ok_1200). exact E2. }
      assert (H1 : (20 <=? py_round1 x) = true).
      { apply (round1_above 20 200 (2 ^ 9) threshold_ok_20). exact E1. }
      destruct (20 <? py_round1 x) eqn:E.
      * apply clamp_hv_mid; assumption.
      * rewrite clamp_hv_low by exact E. symmetry.
        apply leb_not_ltb_eq; try assumption. eexists _, _, _. reflexivity.
    + rewrite (clamp_hv_low x) by assumption. rewrite round1_20.
      apply clamp_hv_low.
      apply (round1_not_above 20 200 (2 ^ 9) threshold_ok_20). exact E1.
Qed.

End Clamp.

(** * Sums, dictionaries, yield fractions *)

Section Containers.

Local Open Scope Z_scope.

(** ** Addition *)

(** Float addition is commutative (it is not associative). *)
Lemma SFadd_comm (x y : spec_float) : SF64add x y = SF64add y x.
Proof.
  unfold SF64add.
  destruct x as [sx|sx| |sx mx ex], y as [sy|sy| |sy my ey]; simpl; try reflexivity.
  - destruct sx, sy; reflexivity.
  - destruct sx, sy; reflexivity.
  - rewrite (Z.min_comm ey ex), Z.add_comm. reflexivity.
Qed.

(** Adding to the start value [0.0] only turns [-0.0] into [0.0]. *)
Lemma SFadd_zero_l (x : spec_float) :
  SF64add (S754_zero false) x = match x with S754_zero _ => S754_zero false | _ => x end.
Proof. destruct x as [[]|[]| |s m e]; reflexivity. Qed.

Lemma SFadd_start_swap (a b : spec_float) :
  SF64add (SF64add (S754_zero false) a) b = SF64add (SF64add (S754_zero false) b) a.
Proof.
  rewrite !SFadd_zero_l.
  destruct a as [sa|sa| |sa ma ea], b as [sb|sb| |sb mb eb];
    try apply SFadd_comm; try reflexivity;
    try (destruct sa; reflexivity); try (destruct sb; reflexivity).
  destruct sa, sb; reflexivity.
Qed.

Local Open Scope float_scope.

(** A sum of two items does not depend on their order. *)
Lemma py_sum_swap (a b : float) : py_sum [a; b] = py_sum [b; a].
Proof.
  unfold py_sum. simpl. apply Prim2SF_inj.
  rewrite !add_spec. change (Prim2SF 0) with (S754_zero false).
  apply SFadd_start_swap.
Qed.

(** ** Dictionaries *)

Lemma dict_get_absent {V : Type} (d : dict V) (k : string) (v : V) :
  has_key d k = false -> dict_get d k v = v.
Proof.
  unfold has_key, keys. induction d as [|[k' v'] d IH]; simpl; [reflexivity|].
  intros H. apply orb_false_elim in H. destruct H as [H1 H2].
  rewrite String.eqb_sym, H1. apply IH. exact H2.
Qed.

Lemma dict_get_In {V : Type} (d : dict V) (k : string) (v w : V) :
  NoDup (keys d) -> In (k, w) d -> dict_get d k v = w.
Proof.
  unfold keys. induction d as [|[k' v'] d IH]; simpl; [tauto|].
  intros Hnd [Heq|Hin].
  - injection Heq as -> ->. rewrite String.eqb_refl. reflexivity.
  - inversion Hnd as [|? ? Hni Hnd']; subst.
    destruct (String.eqb_spec k' k) as [->|Hne].
    + exfalso. apply Hni. apply in_map_iff. exists (k, w). split; [reflexivity|exact Hin].
    + apply IH; assumption.
Qed.

Lemma dict_get_forallb {V : Type} (P : V -> bool) (d : dict V) (k : string) (v : V) :
  P v = true -> forallb P (values d) = true -> P (dict_get d k v) = true.
Proof.
  intros Hv. unfold values. induction d as [|[k' v'] d IH]; simpl; [intros _; exact Hv|].
  intros H. apply andb_prop in H. destruct H as [H1 H2].
  destruct (String.eqb k' k); [exact H1|apply IH; exact H2].
Qed.

Lemma dict_get_perm {V : Type} (d d' : dict V) (k : string) (v : V) :
  NoDup (keys d) -> Permutation d d' -> dict_get d k v = dict_get d' k v.
Proof.
  intros Hnd Hp. induction Hp as [|[k1 v1] l l' Hp IH|[k1 v1] [k2 v2] l|l l' l'' Hp1 IH1 Hp2 IH2].
  - reflexivity.
  - simpl. rewrite IH; [reflexivity|]. inversion Hnd; assumption.
  - simpl. destruct (String.eqb_spec k1 k) as [->|H1], (String.eqb_spec k2 k) as [->|H2];
      try reflexivity.
    exfalso. inversion Hnd as [|? ? Hni _]; subst. apply Hni. simpl. left. reflexivity.
  - rewrite IH1 by exact Hnd. apply IH2.
    apply (Permutation_NoDup (l := keys l)); [|exact Hnd].
    unfold keys. apply Permutation_map. exact Hp1.
Qed.

(** The non-carbon entries of two orderings of a composition are
    orderings of each other. *)
Lemma non_carbon_perm (c c' : dict float) :
  Permutation c c' -> Permutation (filter not_carbon c) (filter not_carbon c').
Proof.
  intros Hp. induction Hp as [|it c c' Hp IH|it1 it2 c|c c' c'' Hp1 IH1 Hp2 IH2]; simpl.
  - apply perm_nil.
  - destruct (not_carbon it); [apply perm_skip|]; exact IH.
  - destruct (not_carbon it1), (not_carbon it2);
      first [apply perm_swap | apply Permutation_refl].
  - exact (Permutation_trans IH1 IH2).
Qed.

Lemma perm_short {A : Type} (l l' : list A) :
  Permutation l l' -> (List.length l <= 2)%nat ->
  l' = l \/ exists a b, l = [a; b] /\ l' = [b; a].
Proof.
  intros Hp Hl. destruct l as [|a [|b [|c l]]]; simpl in Hl; try lia.
  - left. apply Permutation_nil. exact Hp.
  - left. apply Permutation_length_1_inv. exact Hp.
  - apply Permutation_length_2_inv in Hp. destruct Hp as [->| ->].
    + left. reflexivity.
    + right. exists a, b. split; reflexivity.
Qed.

(** ** Yield fractions *)

Lemma SFleb_pos_finite_inv (mt : positive) (et : Z) (y : spec_float) :
  SFleb (S754_finite false mt et) y = true ->
  y = S754_infinity false \/
  exists m e, y = S754_finite false m e /\ (et < e \/ (et = e /\ Zpos mt <= Zpos m))%Z.
Proof.
  unfold SFleb, SFcompare. destruct y as [s|s| |s m e]; try discriminate.
  - destruct s; [discriminate|]. intros _. left. reflexivity.
  - destruct s; [discriminate|]. intros H. right. exists m, e. split; [reflexivity|].
    destruct (Z.compare_spec et e) as [He|He|He]; try discriminate; [right|left; exact He].
    split; [exact He|].
    change (Pos.compare_cont Eq mt m) with (Pos.compare mt m) in H.
    destruct (Pos.compare_spec mt m); try discriminate; lia.
Qed.

Lemma SFltb_finite_pos_inv (y : spec_float) (mt : positive) (et : Z) :
  SFltb y (S754_finite false mt et) = true ->
  forall m e, y = S754_finite false m e -> (e < et \/ (e = et /\ Zpos m < Zpos mt))%Z.
Proof.
  intros H m e ->. unfold SFltb, SFcompare in H.
  destruct (Z.compare_spec e et) as [He|He|He]; try discriminate; [right|left; exact He].
  split; [exact He|].
  change (Pos.compare_cont Eq m mt) with (Pos.compare m mt) in H.
  destruct (Pos.compare_spec m mt); try discriminate; lia.
Qed.

Lemma is_fraction_inv (f : float) :
  is_fraction f = true ->
  exists mf, Prim2SF f = S754_finite false mf (-53) /\ (2 ^ 52 <= Zpos mf < 2 ^ 53)%Z.
Proof.
  unfold is_fraction. intros H. apply andb_prop in H. destruct H as [H1 H2].
  rewrite leb_spec in H1. rewrite ltb_spec in H2.
  change (Prim2SF 0.5) with (S754_finite false 4503599627370496 (-53)) in H1.
  change (Prim2SF 1) with (S754_finite false 4503599627370496 (-52)) in H2.
  apply SFleb_pos_finite_inv in H1. destruct H1 as [H1|(m & e & H1 & Hc)].
  - rewrite H1 in H2. discriminate.
  - generalize (SFltb_finite_pos_inv _ _ _ H2 m e H1). intros Hc'.
    destruct (valid_finite_inv f false m e H1) as [Hm1 Hm2].
    assert (He : e = (-53)%Z).
    { destruct Hc as [Hc|[Hc _]]; [|lia].
      destruct Hc' as [Hc'|[Hc' Hlt]]; [lia|].
      assert (2 ^ 52 <= Zpos m)%Z by (apply Hm2; lia).
      assert (2 ^ 52 = 4503599627370496)%Z by reflexivity. lia. }
    subst e. exists m. split; [exact H1|]. split; [apply Hm2; lia|exact Hm1].
Qed.

(** Scaling a non-negative float by a fraction does not increase it. *)
Lemma mul_fraction_le (x f : float) :
  is_fraction f = true -> (0 <=? x) = true -> (x * f <=? x) = true.
Proof.
  intros Hf Hx. destruct (is_fraction_inv f Hf) as (mf & Ef & Hmf).
  rewrite leb_spec in Hx. change (Prim2SF 0) with (S754_zero false) in Hx.
  rewrite leb_spec, mul_spec, Ef.
  generalize (Prim2SF_valid x).
  destruct (Prim2SF x) as [s|s| |s m e]; try discriminate.
  - intros _. destruct s; reflexivity.
  - intros _. destruct s; [discriminate|reflexivity].
  - destruct s; [discriminate|]. simpl valid_binary. intros Hb.
    apply SFmul_fraction_le; assumption.
Qed.

End Containers.

(** * Properties of the estimator *)

(** ** Not-a-number *)

(** A float that is neither at most [t] nor above [t] is NaN. *)
Lemma incomparable_nan (c t : float) :
  (t <=? t) = true -> (c <=? t) = false -> (t <? c) = false -> Prim2SF c = S754_nan.
Proof.
  rewrite !leb_spec, ltb_spec. unfold SFleb, SFltb. intros Ht H1 H2.
  destruct (SFcompare (Prim2SF c) (Prim2SF t)) as [k|] eqn:E.
  - rewrite (SFcompare_antisym _ _ _ E) in H2. destruct k; discriminate.
  - destruct (Prim2SF c) as [s|s| |s m e]; try reflexivity;
      destruct (Prim2SF t) as [s'|s'| |s' m' e']; discriminate.
Qed.

(** On NaN the second iron branch and the non-iron branch agree. *)
Lemma carbon_nan (c : float) :
  Prim2SF c = S754_nan -> 120.0 + 400.0 * (c - 0.2) = 40.0 * c.
Proof.
  intros H. apply Prim2SF_inj.
  rewrite add_spec, !mul_spec, sub_spec, H.
  destruct (Prim2SF 120.0), (Prim2SF 400.0), (Prim2SF 40.0), (Prim2SF 0.2); reflexivity.
Qed.

Lemma carbon_contribution_spec (matrix : string) (c : float) :
  carbon_contribution matrix c = spec_carbon_contribution matrix c.
Proof.
  unfold carbon_contribution, spec_carbon_contribution.
  destruct (String.eqb matrix "Fe"); simpl; [|reflexivity].
  destruct (c <=? 0.2) eqn:E1; [reflexivity|].
  destruct (0.2 <? c) eqn:E2; [reflexivity|].
  apply carbon_nan. apply (incomparable_nan c 0.2); [reflexivity|assumption|assumption].
Qed.

(** C2.  The estimate always lies in [[20.0, 1200.0]]; a raw hardness above
    1200 gives exactly 1200.0 and one below 20 gives exactly 20.0. *)
Theorem estimate_hv_range_and_saturation
    (matrix : string) (composition : dict float) (heat_treatment : string) :
  let hv := raw_hv matrix composition heat_treatment in
  let r := estimate_hv matrix composition heat_treatment in
  (20.0 <=? r) = true /\ (r <=? 1200.0) = true /\
  ((1200.0 <? hv) = true -> r = 1200.0) /\
  ((hv <? 20.0) = true -> r = 20.0).
Proof.
  intros hv r. unfold r, estimate_hv. cbv zeta. fold hv.
  fold (clamp_hv (py_round1 hv)).
  destruct (clamp_hv_range (py_round1 hv)) as [H1 H2].
  repeat split; try assumption.
  - intros H. apply clamp_hv_high.
    apply (round1_above 1200 12000 (2 ^ 15) threshold_ok_1200). exact H.
  - intros H. apply clamp_hv_low.
    apply (round1_not_above 20 200 (2 ^ 9) threshold_ok_20).
    apply ltb_asym. exact H.
Qed.

Lemma estimate_hv_saturation_witness :
  estimate_hv "Fe" [("C", 5.0); ("W", 12.0)] "Quenching" = 1200.0 /\
  estimate_hv "Mg" [("O", 3.0)] "Annealing" = 20.0.
Proof.
  split.
  - apply (estimate_hv_range_and_saturation "Fe" [("C", 5.0); ("W", 12.0)] "Quenching").
    reflexivity.
  - apply (estimate_hv_range_and_saturation "Mg" [("O", 3.0)] "Annealing").
    reflexivity.
Defined.

(** C3, as stated: the result would be 220.0. *)
Lemma fe_c02_normalizing_not_220 :
  estimate_hv "Fe" [("C", 0.2)] "Normalizing" <> 220.0.
Proof.
  intros H. float_neq H.
Qed.

(** C3, amended.  The base hardness of "Fe" in [BASE_HV] is 120, so
    [estimate_hv("Fe", {"C": 0.2}, "Normalizing")] is 120 + 120 = 240.0. *)
Theorem fe_c02_normalizing_is_240 :
  estimate_hv "Fe" [("C", 0.2)] "Normalizing" = 240.0.
Proof. reflexivity. Qed.

(** C4, as stated: the result would be 300.0. *)
Lemma fe_c04_normalizing_not_300 :
  estimate_hv "Fe" [("C", 0.4)] "Normalizing" <> 300.0.
Proof.
  intros H. float_neq H.
Qed.

(** C4, amended.  With base 120 for "Fe",
    [estimate_hv("Fe", {"C": 0.4}, "Normalizing")] is 120 + (120 + 80) = 320.0. *)
Theorem fe_c04_normalizing_is_320 :
  estimate_hv "Fe" [("C", 0.4)] "Normalizing" = 320.0.
Proof. reflexivity. Qed.



Lemma HT_YS_FRAC_keys_nodup : NoDup (keys HT_YS_FRAC).
Proof.
  nodup_keys.
Qed.

(** C6.  [uts_to_ys] multiplies [uts] by the entry of [HT_YS_FRAC] for the
    heat treatment, or by 0.8 when the name is not a key, and does nothing
    else to the product; [uts_to_ys(345.0, "Hardening")] is the float
    269.1. *)
Theorem uts_to_ys_is_scaling (uts : float) (ht : string) :
  (forall frac, In (ht, frac) HT_YS_FRAC -> uts_to_ys uts ht = uts * frac) /\
  (has_key HT_YS_FRAC ht = false -> uts_to_ys uts ht = uts * 0.8) /\
  uts_to_ys 345.0 "Hardening" = 269.1.
Proof.
  repeat split.
  - intros frac Hin. unfold uts_to_ys.
    rewrite (dict_get_In HT_YS_FRAC ht 0.8 frac HT_YS_FRAC_keys_nodup Hin). reflexivity.
  - intros H. unfold uts_to_ys. rewrite (dict_get_absent _ _ _ H). reflexivity.
Qed.

Lemma uts_to_ys_witness :
  uts_to_ys 1000.0 "Quenching" = 1000.0 * 0.82 /\
  uts_to_ys 1000.0 "Mystery" = 1000.0 * 0.8.
Proof.
  split.
  - apply (uts_to_ys_is_scaling 1000.0 "Quenching"). simpl. tauto.
  - apply (uts_to_ys_is_scaling 1000.0 "Mystery"). reflexivity.
Defined.

(** C7.  [hv_to_uts] is the single float product [hv * 3.45];
    [hv_to_uts(100.0)] is exactly 345.0. *)
Theorem hv_to_uts_is_scaling (hv : float) :
  hv_to_uts hv = hv * 3.45 /\ hv_to_uts 100.0 = 345.0.
Proof. split; reflexivity. Qed.

(** C8, as stated.  Four non-carbon entries whose terms are +1e308, +1e308,
    -1e308 and -1e308: summed in the first order the partial sum overflows
    to infinity and the estimate saturates at 1200.0; summed in the second
    order the terms cancel and the estimate is the base hardness 100.0. *)
Lemma summation_order_changes_result :
  let c1 := [("Zn", 1e308); ("Sn", 1e308); ("Pb", 2e307); ("SiO2", 2e307)] in
  let c2 := [("Zn", 1e308); ("Pb", 2e307); ("Sn", 1e308); ("SiO2", 2e307)] in
  NoDup (keys c1) /\ Permutation c1 c2 /\
  estimate_hv "Ti" c1 "Normalizing" = 1200.0 /\
  estimate_hv "Ti" c2 "Normalizing" = 100.0 /\
  estimate_hv "Ti" c1 "Normalizing" <> estimate_hv "Ti" c2 "Normalizing".
Proof.
  cbv zeta. repeat split.
  - nodup_keys.
  - apply perm_skip. apply perm_swap.
  - intros H. float_neq H.
Qed.

(** C8, amended.  Permuting the entries of a composition changes neither
    the carbon value nor the collection of non-carbon terms that are
    summed; with at most two non-carbon entries the estimate itself is
    unchanged.  (With more, the rounding of the partial sums decides.) *)
Theorem estimate_hv_order_independent_two
    (matrix heat_treatment : string) (composition composition' : dict float) :
  NoDup (keys composition) ->
  Permutation composition composition' ->
  dict_get composition' "C" 0.0 = dict_get composition "C" 0.0 /\
  Permutation (map element_term (filter not_carbon composition))
              (map element_term (filter not_carbon composition')) /\
  ((List.length (filter not_carbon composition) <= 2)%nat ->
   estimate_hv matrix composition' heat_treatment
   = estimate_hv matrix composition heat_treatment).
Proof.
  intros Hnd Hp.
  assert (HC : dict_get composition' "C" 0.0 = dict_get composition "C" 0.0).
  { symmetry. apply dict_get_perm; assumption. }
  assert (Hf : Permutation (filter not_carbon composition) (filter not_carbon composition')).
  { apply non_carbon_perm. exact Hp. }
  split; [exact HC|]. split; [apply Permutation_map; exact Hf|].
  intros Hlen. unfold estimate_hv, raw_hv. cbv zeta. rewrite HC.
  replace (element_contribution composition') with (element_contribution composition);
    [reflexivity|].
  unfold element_contribution.
  destruct (perm_short _ _ Hf Hlen) as [->|(a & b & -> & ->)].
  - reflexivity.
  - simpl map. apply py_sum_swap.
Qed.

Lemma estimate_hv_order_witness :
  estimate_hv "Fe" [("Cr", 1.1); ("C", 0.33); ("Mo", 0.27)] "Tempering"
  = estimate_hv "Fe" [("C", 0.33); ("Mo", 0.27); ("Cr", 1.1)] "Tempering".
Proof.
  apply (estimate_hv_order_independent_two "Fe" "Tempering"
           [("C", 0.33); ("Mo", 0.27); ("Cr", 1.1)]
           [("Cr", 1.1); ("C", 0.33); ("Mo", 0.27)]).
  - nodup_keys.
  - apply Permutation_sym.
    apply (Permutation_cons_app [("C", 0.33); ("Mo", 0.27)] [] ("Cr", 1.1)).
    simpl. apply Permutation_refl.
  - apply le_n.
Defined.

(** C9.  Every yield fraction, table entry or default, lies strictly
    between 0 and 1, the largest being 0.90 for "Nitriding"; hence the
    yield strength derived from a non-negative tensile strength never
    exceeds it. *)
Theorem yield_never_exceeds_tensile (uts : float) (ht : string) :
  (0 <=? uts) = true ->
  (uts_to_ys uts ht <=? uts) = true /\
  (0 <? dict_get HT_YS_FRAC ht 0.8) = true /\
  (dict_get HT_YS_FRAC ht 0.8 <? 1) = true /\
  (dict_get HT_YS_FRAC ht 0.8 <=? 0.90) = true /\
  dict_get HT_YS_FRAC "Nitriding" 0.8 = 0.90.
Proof.
  intros Huts.
  generalize (dict_get_forallb
                (fun f => is_fraction f && (0 <? f) && (f <? 1) && (f <=? 0.90))
                HT_YS_FRAC ht 0.8 eq_refl eq_refl).
  cbv beta. intros H.
  apply andb_prop in H. destruct H as [H H4].
  apply andb_prop in H. destruct H as [H H3].
  apply andb_prop in H. destruct H as [H1 H2].
  split; [|split; [exact H2|split; [exact H3|split; [exact H4|reflexivity]]]].
  unfold uts_to_ys. apply mul_fraction_le; assumption.
Qed.

Lemma yield_never_exceeds_tensile_witness :
  (uts_to_ys 414.0 "Nitriding" <=? 414.0) = true.
Proof.
  apply (yield_never_exceeds_tensile 414.0 "Nitriding"). reflexivity.
Defined.

(** C10.  The factors of "Pb", "S", "P" and "O" are negative, and raising
    the weight percent of lead from 1.0 to 2.0 in a copper matrix lowers
    the estimate (from 75.0 to 70.0): [estimate_hv] is not increasing in
    the weight percents. *)
Theorem estimate_hv_not_monotone :
  dict_get ELEMENT_FACTOR "Pb" DEFAULT_ELEM_FACTOR = -5.0 /\
  dict_get ELEMENT_FACTOR "S" DEFAULT_ELEM_FACTOR = -10.0 /\
  dict_get ELEMENT_FACTOR "P" DEFAULT_ELEM_FACTOR = -8.0 /\
  dict_get ELEMENT_FACTOR "O" DEFAULT_ELEM_FACTOR = -20.0 /\
  exists (matrix ht el : string) (rest : dict float) (pct pct' : float),
    (0 <? pct) = true /\ (pct <? pct') = true /\
    (estimate_hv matrix ((el, pct') :: rest) ht
       <? estimate_hv matrix ((el, pct) :: rest) ht) = true.
Proof.
  repeat split.
  exists "Cu", "Normalizing", "Pb", [], 1.0, 2.0. repeat split.
Qed.

(** * The order of floats as an order of integers *)

Section OrderKey.

Local Open Scope Z_scope.

Lemma bounded_key (m : positive) (e : Z) :
  bounded prec emax m e = true ->
  2 ^ 53 <= (e + 1075) * 2 ^ 53 + Zpos m < 2 ^ 64 * 2 ^ 53 /\
  0 < Zpos m < 2 ^ 53.
Proof.
  intros Hb. apply bounded_inv in Hb. destruct Hb as [Hc He].
  rewrite digits2_pos_log2, fexp64_eq in Hc.
  assert (Hl : 0 <= Z.log2 (Zpos m)) by apply Z.log2_nonneg.
  generalize (log2_bounds (Zpos m) ltac:(lia)). intros Hm.
  assert (Hp : 2 ^ (Z.log2 (Zpos m) + 1) <= 2 ^ 53) by (apply Z.pow_le_mono_r; lia).
  change (emax - prec) with 971 in He.
  change (2 ^ 64) with 18446744073709551616.
  change (2 ^ 53) with 9007199254740992 in *. lia.
Qed.

(** On valid floats other than NaN the comparison is the comparison of
    the keys. *)
Lemma SFcompare_ordkey (x y : spec_float) :
  valid_binary x = true -> valid_binary y = true ->
  x <> S754_nan -> y <> S754_nan ->
  SFcompare x y = Some (ordkey x ?= ordkey y).
Proof.
  intros Vx Vy Nx Ny.
  destruct x as [sx|sx| |sx mx ex], y as [sy|sy| |sy my ey];
    try congruence; simpl in Vx, Vy;
    try (apply bounded_key in Vx; destruct Vx as [Kx Mx]);
    try (apply bounded_key in Vy; destruct Vy as [Ky My]);
    unfold SFcompare, ordkey;
    try (destruct sx); try (destruct sy); f_equal; symmetry;
    change (2 ^ 64) with 18446744073709551616 in *;
    change (2 ^ 53) with 9007199254740992 in *;
    try (apply Z.compare_eq_iff; lia);
    try (apply Z.compare_lt_iff; lia);
    try (apply Z.compare_gt_iff; lia).
  - change (Pos.compare_cont Eq mx my) with (Pos.compare mx my).
    destruct (Z.compare_spec ex ey), (Pos.compare_spec mx my); simpl;
      first [apply Z.compare_eq_iff; subst; lia
            |apply Z.compare_lt_iff; subst; lia
            |apply Z.compare_gt_iff; subst; lia].
  - change (Pos.compare_cont Eq mx my) with (Pos.compare mx my).
    destruct (Z.compare_spec ex ey), (Pos.compare_spec mx my); simpl;
      first [apply Z.compare_eq_iff; subst; lia
            |apply Z.compare_lt_iff; subst; lia
            |apply Z.compare_gt_iff; subst; lia].
Qed.

Local Open Scope float_scope.

Lemma fcompare_fkey (x y : float) :
  Prim2SF x <> S754_nan -> Prim2SF y <> S754_nan ->
  SFcompare (Prim2SF x) (Prim2SF y) = Some (fkey x ?= fkey y)%Z.
Proof.
  intros Nx Ny. apply SFcompare_ordkey; try assumption; apply Prim2SF_valid.
Qed.

Lemma leb_fkey (x y : float) :
  Prim2SF x <> S754_nan -> Prim2SF y <> S754_nan ->
  (x <=? y) = (fkey x <=? fkey y)%Z.
Proof.
  intros Nx Ny. rewrite leb_spec. unfold SFleb. rewrite fcompare_fkey by assumption.
  unfold Z.leb. destruct (fkey x ?= fkey y)%Z; reflexivity.
Qed.

Lemma ltb_fkey (x y : float) :
  Prim2SF x <> S754_nan -> Prim2SF y <> S754_nan ->
  (x <? y) = (fkey x <? fkey y)%Z.
Proof.
  intros Nx Ny. rewrite ltb_spec. unfold SFltb. rewrite fcompare_fkey by assumption.
  unfold Z.ltb. destruct (fkey x ?= fkey y)%Z; reflexivity.
Qed.

(** A float that takes part in a successful comparison is not NaN. *)
Lemma ltb_not_nan (x y : float) :
  (x <? y) = true -> Prim2SF x <> S754_nan /\ Prim2SF y <> S754_nan.
Proof.
  rewrite ltb_spec. unfold SFltb.
  destruct (Prim2SF x) as [| | |], (Prim2SF y) as [| | |]; simpl; try discriminate;
    intros _; split; discriminate.
Qed.

Lemma leb_not_nan (x y : float) :
  (x <=? y) = true -> Prim2SF x <> S754_nan /\ Prim2SF y <> S754_nan.
Proof.
  rewrite leb_spec. unfold SFleb.
  destruct (Prim2SF x) as [| | |], (Prim2SF y) as [| | |]; simpl; try discriminate;
    intros _; split; discriminate.
Qed.

Lemma leb_trans (x y z : float) :
  (x <=? y) = true -> (y <=? z) = true -> (x <=? z) = true.
Proof.
  intros H1 H2.
  destruct (leb_not_nan _ _ H1) as [Nx Ny]. destruct (leb_not_nan _ _ H2) as [_ Nz].
  rewrite leb_fkey in * by assumption.
  apply Z.leb_le in H1, H2. apply Z.leb_le. lia.
Qed.

End OrderKey.

(** * The estimate is a number of tenths *)

Section TenthsGrid.

Local Open Scope Z_scope.

Lemma tenths_at_least (t : float) (T N n : Z) :
  threshold_ok t T N = true -> T <= n < 2 ^ 53 ->
  PrimFloat.leb t (float_of_tenths n) = true.
Proof.
  intros Hok Hn.
  destruct (threshold_inv t T N Hok)
    as (mt & et & Ht & Het & HetN & HN & HT & Hhi & Hlo & HT15 & Hen).
  destruct (Z.lt_ge_cases n N) as [Hs|Hs].
  - generalize (Hen n ltac:(lia)). unfold threshold_check.
    replace (T <=? n) with true by (symmetry; apply Z.leb_le; lia).
    intros Hch. apply andb_prop in Hch. apply Hch.
  - destruct (float_of_tenths_shape n ltac:(lia)) as (m' & e' & Hsh & Hbig).
    destruct (Hbig ltac:(lia)) as [Hm' He'].
    assert (Z.log2 N <= Z.log2 n) by (apply Z.log2_le_mono; lia).
    rewrite leb_spec, Ht, Hsh. apply SFleb_pos_build; lia.
Qed.

Lemma tenths_at_most (t : float) (T N n : Z) :
  threshold_ok t T N = true -> 0 <= n <= T ->
  PrimFloat.ltb t (float_of_tenths n) = false.
Proof.
  intros Hok Hn.
  destruct (threshold_inv t T N Hok)
    as (mt & et & Ht & Het & HetN & HN & HT & Hhi & Hlo & HT15 & Hen).
  generalize (Hen n ltac:(lia)). unfold threshold_check.
  replace (n <=? T) with true by (symmetry; apply Z.leb_le; lia).
  intros Hch. apply andb_prop in Hch. destruct Hch as [_ Hch].
  apply negb_true_iff in Hch. exact Hch.
Qed.

Lemma decimal_tenths_nonneg (m : positive) (e : Z) : 0 <= decimal_tenths m e.
Proof.
  unfold decimal_tenths. destruct (0 <=? e) eqn:E.
  - apply Z.leb_le in E. generalize (pow2_pos e E). nia.
  - apply Z.leb_gt in E.
    generalize (round_half_even_range (10 * Zpos m) (2 ^ (- e)) ltac:(apply pow2_pos; lia)).
    assert (0 <= 10 * Zpos m / 2 ^ (- e)).
    { apply Z.div_pos; [lia|]. apply pow2_pos; lia. }
    lia.
Qed.

Local Open Scope float_scope.

(** Whatever the raw hardness, rounding and clamping give the float of
    some number of tenths between 200 and 12000. *)
Lemma clamp_round_tenths (x : float) :
  exists n, (200 <= n <= 12000)%Z /\ clamp_hv (py_round1 x) = float_of_tenths n.
Proof.
  destruct (20 <? py_round1 x) eqn:E1.
  2:{ exists 200%Z. split; [lia|]. rewrite clamp_hv_low by exact E1. reflexivity. }
  destruct (1200 <? py_round1 x) eqn:E2.
  { exists 12000%Z. split; [lia|].
    rewrite clamp_hv_high by (apply ltb_leb; exact E2). reflexivity. }
  rewrite clamp_hv_mid by assumption.
  revert E1 E2. unfold py_round1.
  destruct (Prim2SF x) as [s|s| |s m e] eqn:Hx.
  - intros E1. rewrite ltb_spec, Hx in E1. discriminate.
  - intros E1 E2. rewrite ltb_spec, Hx in E1, E2. destruct s; discriminate.
  - intros E1. rewrite ltb_spec, Hx in E1. discriminate.
  - cbv zeta. generalize (decimal_tenths_nonneg m e). intros Hn0.
    destruct (Z.ltb_spec (decimal_tenths m e) (2 ^ 53)) as [Hn|Hn].
    + set (n := decimal_tenths m e) in *. destruct s.
      * intros E1. exfalso.
        destruct (float_of_tenths_shape n ltac:(lia)) as (m' & e' & Hsh & _).
        rewrite ltb_spec, opp_spec, Hsh in E1.
        change (Prim2SF 20) with (S754_finite false 5629499534213120 (-48)) in E1.
        rewrite SFltb_pos_opp_build in E1. discriminate.
      * intros E1 E2.
        destruct (Z.le_gt_cases n 200) as [Hlo|Hlo].
        { rewrite (tenths_at_most 20 200 (2 ^ 9) n threshold_ok_20) in E1 by lia.
          discriminate. }
        destruct (Z.le_gt_cases n 12000) as [Hhi|Hhi].
        { exists n. split; [lia|reflexivity]. }
        exists 12000%Z. split; [lia|].
        apply (leb_not_ltb_eq 1200); [eexists _, _, _; reflexivity| |exact E2].
        apply (tenths_at_least 1200 12000 (2 ^ 15) n threshold_ok_1200). lia.
    + intros E1 E2. exfalso.
      generalize (round1_identity_branch x s m e Hx Hn). intros He.
      rewrite ltb_spec, Hx in E1, E2.
      change (Prim2SF 20) with (S754_finite false 5629499534213120 (-48)) in E1.
      change (Prim2SF 1200) with (S754_finite false 5277655813324800 (-42)) in E2.
      apply SFltb_pos_finite_inv in E1. destruct E1 as [-> _].
      apply SFltb_pos_finite_false_inv in E2. lia.
Qed.

Lemma round1_fixed_range : all_from round1_fixed (Z.to_nat 11801) 200 = true.
Proof. vm_compute. reflexivity. Qed.

Lemma is_nan_spec (x : float) : is_nan x = true -> Prim2SF x = S754_nan.
Proof.
  unfold is_nan. rewrite eqb_spec. unfold SFeqb.
  generalize (Prim2SF_valid x).
  destruct (Prim2SF x) as [s|s| |s m e] eqn:Hx; intros V; try reflexivity.
  - discriminate.
  - destruct s; discriminate.
  - rewrite SFcompare_ordkey by (assumption || discriminate).
    rewrite Z.compare_refl. discriminate.
Qed.

End TenthsGrid.

Lemma estimate_hv_grid
    (matrix : string) (composition : dict float) (heat_treatment : string) :
  exists n, (200 <= n <= 12000)%Z /\
            estimate_hv matrix composition heat_treatment = float_of_tenths n.
Proof. exact (clamp_round_tenths (raw_hv matrix composition heat_treatment)). Qed.

(** X1.  The estimate is always a float with one decimal: the float
    nearest to [n / 10] for some whole number [n] of tenths between 200
    and 12000.  In particular it is never NaN or infinite. *)
Theorem estimate_hv_is_tenths
    (matrix : string) (composition : dict float) (heat_treatment : string) :
  exists n, (200 <= n <= 12000)%Z /\
            estimate_hv matrix composition heat_treatment = float_of_tenths n.
Proof.
  unfold estimate_hv. cbv zeta.
  apply (clamp_round_tenths (raw_hv matrix composition heat_treatment)).
Qed.

(** X2.  Rounding the estimate to one decimal again changes nothing:
    [round(estimate_hv(...), 1) == estimate_hv(...)]. *)
Theorem estimate_hv_round_stable
    (matrix : string) (composition : dict float) (heat_treatment : string) :
  py_round1 (estimate_hv matrix composition heat_treatment)
  = estimate_hv matrix composition heat_treatment.
Proof.
  destruct (estimate_hv_grid matrix composition heat_treatment) as (n & Hn & ->).
  apply Leibniz.eqb_spec.
  apply (all_from_spec round1_fixed (Z.to_nat 11801) 200 round1_fixed_range). lia.
Qed.

(** X3.  A raw hardness that is NaN (a NaN weight percent, or infinite
    terms of opposite sign) is reported as 20.0, the lower bound: the
    comparisons of [min] and [max] fail on NaN and [max] keeps 20.0. *)
Theorem estimate_hv_of_nan
    (matrix : string) (composition : dict float) (heat_treatment : string) :
  is_nan (raw_hv matrix composition heat_treatment) = true ->
  estimate_hv matrix composition heat_treatment = 20.0.
Proof.
  intros H. apply is_nan_spec in H. unfold estimate_hv. cbv zeta.
  fold (clamp_hv (py_round1 (raw_hv matrix composition heat_treatment))).
  apply clamp_hv_low. unfold py_round1. rewrite H.
  rewrite ltb_spec, H. reflexivity.
Qed.

Lemma estimate_hv_of_nan_witness :
  estimate_hv "Fe" [("C", nan); ("Cr", 1.0)] "Hardening" = 20.0 /\
  estimate_hv "Al" [("Zn", infinity); ("Pb", infinity)] "Annealing" = 20.0.
Proof.
  split.
  - apply (estimate_hv_of_nan "Fe" [("C", nan); ("Cr", 1.0)] "Hardening"). reflexivity.
  - apply (estimate_hv_of_nan "Al" [("Zn", infinity); ("Pb", infinity)] "Annealing").
    reflexivity.
Defined.

(** * The pipeline on the grid of estimates *)

Section Pipeline.

Lemma dict_get_in_values {V : Type} (d : dict V) (k : string) (v : V) :
  In (dict_get d k v) (v :: values d).
Proof.
  unfold values. induction d as [|[k' v'] d IH]; simpl; [left; reflexivity|].
  destruct (String.eqb k' k); [right; left; reflexivity|].
  destruct IH as [IH|IH]; [left; exact IH|right; right; exact IH].
Qed.

Lemma yield_fraction_in (ht : string) : In (dict_get HT_YS_FRAC ht 0.8) yield_fractions.
Proof. apply dict_get_in_values. Qed.

Lemma pipeline_bounds_range :
  all_from pipeline_bounds_check (Z.to_nat 11801) 200 = true.
Proof. vm_compute. reflexivity. Qed.

Lemma pipeline_step_range :
  all_from pipeline_step_check (Z.to_nat 11800) 200 = true.
Proof. vm_compute. reflexivity. Qed.

Lemma ltb_leb_trans (x y z : float) :
  (x <? y) = true -> (y <=? z) = true -> (x <? z) = true.
Proof.
  intros H1 H2.
  destruct (ltb_not_nan _ _ H1) as [Nx Ny]. destruct (leb_not_nan _ _ H2) as [_ Nz].
  rewrite ltb_fkey in * by assumption. rewrite leb_fkey in H2 by assumption.
  apply Z.ltb_lt in H1. apply Z.leb_le in H2. apply Z.ltb_lt. lia.
Qed.

Lemma ltb_not_leb (x y : float) : (x <? y) = true -> (y <=? x) = false.
Proof.
  intros H. destruct (ltb_not_nan _ _ H) as [Nx Ny].
  rewrite ltb_fkey in H by assumption. rewrite leb_fkey by assumption.
  apply Z.ltb_lt in H. apply Z.leb_gt. lia.
Qed.

Lemma leb_refl_tenths (n : Z) :
  (200 <= n <= 12000)%Z -> (float_of_tenths n <=? float_of_tenths n) = true.
Proof.
  intros Hn.
  assert (H : (20 <=? float_of_tenths n) = true).
  { apply (tenths_at_least 20 200 (2 ^ 9) n threshold_ok_20). lia. }
  destruct (leb_not_nan _ _ H) as [_ N].
  rewrite leb_fkey by assumption. apply Z.leb_refl.
Qed.

(** Along the grid the estimate, the tensile strength and the yield
    strength for a fixed fraction are in step. *)
Lemma grid_monotone (k : nat) :
  forall n, (200 <= n)%Z -> (n + Z.of_nat k <= 12000)%Z ->
    let a := float_of_tenths n in
    let b := float_of_tenths (n + Z.of_nat k) in
    (k <> O -> (a <? b) = true) /\
    (hv_to_uts a <=? hv_to_uts b) = true /\
    (forall f, In f yield_fractions -> (hv_to_uts a * f <=? hv_to_uts b * f) = true).
Proof.
  induction k as [|k IH]; intros n Hlo Hhi; cbv zeta.
  - replace (n + Z.of_nat 0)%Z with n by lia.
    generalize (all_from_spec _ _ _ pipeline_bounds_range n ltac:(lia)).
    unfold pipeline_bounds_check. cbv zeta. intros Hb.
    apply andb_prop in Hb. destruct Hb as [Hb Hf].
    apply andb_prop in Hb. destruct Hb as [Hb1 Hb2].
    split; [congruence|]. split.
    + destruct (leb_not_nan _ _ Hb1) as [_ N].
      rewrite leb_fkey by assumption. apply Z.leb_refl.
    + intros f Hin. rewrite forallb_forall in Hf. specialize (Hf f Hin).
      apply andb_prop in Hf. destruct Hf as [Hf _].
      apply andb_prop in Hf. destruct Hf as [Hf _].
      destruct (leb_not_nan _ _ Hf) as [_ N].
      rewrite leb_fkey by assumption. apply Z.leb_refl.
  - replace (n + Z.of_nat (S k))%Z with ((n + 1) + Z.of_nat k)%Z by lia.
    generalize (all_from_spec _ _ _ pipeline_step_range n ltac:(lia)).
    unfold pipeline_step_check. cbv zeta. intros Hs.
    apply andb_prop in Hs. destruct Hs as [Hs Hf].
    apply andb_prop in Hs. destruct Hs as [Hs1 Hs2].
    destruct (IH (n + 1)%Z ltac:(lia) ltac:(lia)) as (I1 & I2 & I3).
    split; [|split].
    + intros _. destruct k as [|k'].
      * replace (n + 1 + Z.of_nat 0)%Z with (n + 1)%Z by lia. exact Hs1.
      * apply (ltb_leb_trans _ (float_of_tenths (n + 1))); [exact Hs1|].
        apply ltb_leb. apply I1. discriminate.
    + apply (leb_trans _ (hv_to_uts (float_of_tenths (n + 1)))); assumption.
    + intros f Hin. rewrite forallb_forall in Hf.
      apply (leb_trans _ (hv_to_uts (float_of_tenths (n + 1)) * f)); [apply Hf|apply I3];
        exact Hin.
Qed.

Lemma grid_order (n1 n2 : Z) :
  (200 <= n1 <= 12000)%Z -> (200 <= n2 <= 12000)%Z ->
  (float_of_tenths n1 <=? float_of_tenths n2) = true -> (n1 <= n2)%Z.
Proof.
  intros H1 H2 Hle. destruct (Z.le_gt_cases n1 n2) as [H|H]; [exact H|exfalso].
  destruct (grid_monotone (Z.to_nat (n1 - n2)) n2 ltac:(lia) ltac:(lia)) as (I1 & _).
  replace (n2 + Z.of_nat (Z.to_nat (n1 - n2)))%Z with n1 in I1 by lia.
  rewrite (ltb_not_leb _ _ (I1 ltac:(lia))) in Hle. discriminate.
Qed.

End Pipeline.

(** X4.  Whatever the inputs, the predicted tensile strength lies between
    69.0 and 4140.0 MPa and the yield strength between 37.95 and 3726.0
    MPa, strictly below the tensile strength. *)
Theorem predict_bounds (matrix : string) (comp : dict float) (heat : string) :
  let p := predict matrix comp heat in
  (69.0 <=? UTS_MPa p) = true /\ (UTS_MPa p <=? 4140.0) = true /\
  (37.95 <=? YS_MPa p) = true /\ (YS_MPa p <=? 3726.0) = true /\
  (YS_MPa p <? UTS_MPa p) = true.
Proof.
  unfold predict. cbv zeta. simpl.
  destruct (estimate_hv_grid matrix comp heat) as (n & Hn & ->).
  generalize (all_from_spec _ _ _ pipeline_bounds_range n ltac:(lia)).
  unfold pipeline_bounds_check. cbv zeta. intros Hb.
  apply andb_prop in Hb. destruct Hb as [Hb Hf].
  apply andb_prop in Hb. destruct Hb as [Hb1 Hb2].
  rewrite forallb_forall in Hf. specialize (Hf _ (yield_fraction_in heat)).
  apply andb_prop in Hf. destruct Hf as [Hf Hf3].
  apply andb_prop in Hf. destruct Hf as [Hf1 Hf2].
  unfold uts_to_ys. repeat split; assumption.
Qed.

(** X5.  The pipeline keeps the ranking of two alloys: the one with the
    higher (or equal) estimated hardness never gets the lower tensile
    strength, nor, under the same heat treatment, the lower yield
    strength. *)
Theorem predict_preserves_ranking
    (matrix1 matrix2 : string) (comp1 comp2 : dict float) (heat1 heat2 : string) :
  let p1 := predict matrix1 comp1 heat1 in
  let p2 := predict matrix2 comp2 heat2 in
  (Estimated_HV p1 <=? Estimated_HV p2) = true ->
  (UTS_MPa p1 <=? UTS_MPa p2) = true /\
  (heat1 = heat2 -> (YS_MPa p1 <=? YS_MPa p2) = true).
Proof.
  unfold predict. cbv zeta. simpl.
  destruct (estimate_hv_grid matrix1 comp1 heat1) as (n1 & Hn1 & ->).
  destruct (estimate_hv_grid matrix2 comp2 heat2) as (n2 & Hn2 & ->).
  intros Hle. generalize (grid_order n1 n2 Hn1 Hn2 Hle). intros Hn.
  destruct (grid_monotone (Z.to_nat (n2 - n1)) n1 ltac:(lia) ltac:(lia)) as (_ & I2 & I3).
  replace (n1 + Z.of_nat (Z.to_nat (n2 - n1)))%Z with n2 in I2, I3 by lia.
  split; [exact I2|]. intros <-. unfold uts_to_ys. apply I3. apply yield_fraction_in.
Qed.

Lemma predict_preserves_ranking_witness :
  (UTS_MPa (predict "Al" [("Cu", 4.4); ("Mg", 1.5)] "Age hardening")
     <=? UTS_MPa (predict "Fe" [("C", 0.4); ("Cr", 1.0)] "Hardening")) = true.
Proof.
  exact (proj1 (predict_preserves_ranking "Al" "Fe" [("Cu", 4.4); ("Mg", 1.5)]
                  [("C", 0.4); ("Cr", 1.0)] "Age hardening" "Hardening" eq_refl)).
Defined.

(** * Rounding and clamping keep the order *)

Section RoundingOrder.

Local Open Scope Z_scope.

Lemma round_half_even_mono (a a' b : Z) :
  0 < b -> a <= a' -> round_half_even a b <= round_half_even a' b.
Proof.
  intros Hb Ha.
  generalize (round_half_even_range a b Hb) (round_half_even_range a' b Hb).
  intros R R'.
  assert (Hq : a / b <= a' / b) by (apply Z.div_le_mono; lia).
  destruct (Z.eq_dec (a / b) (a' / b)) as [He|He]; [|lia].
  generalize (Z.div_mod a b ltac:(lia)) (Z.div_mod a' b ltac:(lia)). intros D D'.
  assert (Hr : a mod b <= a' mod b) by nia.
  unfold round_half_even. rewrite <- He.
  destruct (Z.compare_spec (2 * (a mod b)) b), (Z.compare_spec (2 * (a' mod b)) b);
    try lia; destruct (Z.even (a / b)); lia.
Qed.

Lemma round_half_even_scale (a b k : Z) :
  0 < b -> 0 < k -> round_half_even (a * k) (b * k) = round_half_even a b.
Proof.
  intros Hb Hk. unfold round_half_even.
  rewrite Z.div_mul_cancel_r by lia.
  rewrite Zmult_mod_distr_r.
  replace (2 * (a mod b * k)) with (2 * (a mod b) * k) by lia.
  rewrite <- (Zmult_compare_compat_r (2 * (a mod b)) b k) by lia. reflexivity.
Qed.

(** Below the integers, the number of tenths follows the order of the
    floats. *)
Lemma decimal_tenths_mono (x y : float) (m1 : positive) (e1 : Z) (m2 : positive) (e2 : Z) :
  Prim2SF x = S754_finite false m1 e1 ->
  Prim2SF y = S754_finite false m2 e2 ->
  PrimFloat.leb x y = true -> e2 < 0 ->
  decimal_tenths m1 e1 <= decimal_tenths m2 e2.
Proof.
  intros Hx Hy Hle He2.
  rewrite leb_spec, Hx, Hy in Hle.
  apply SFleb_pos_finite_inv in Hle.
  destruct Hle as [Hle|(m & e & Heq & Hc)]; [discriminate|].
  injection Heq as <- <-.
  destruct (valid_finite_inv x false m1 e1 Hx) as [Hm1 _].
  destruct (valid_finite_inv y false m2 e2 Hy) as [_ Hm2].
  assert (He1 : -1074 <= e1).
  { generalize (Prim2SF_valid x). rewrite Hx. simpl. intros V.
    apply bounded_inv in V. destruct V as [V _]. rewrite fexp64_eq in V. lia. }
  unfold decimal_tenths.
  replace (0 <=? e2) with false by (symmetry; apply Z.leb_gt; lia).
  replace (0 <=? e1) with false by (symmetry; apply Z.leb_gt; lia).
  destruct Hc as [Hc|[Hc Hm]].
  - assert (Hk : 0 < 2 ^ (e2 - e1)) by (apply pow2_pos; lia).
    assert (Hb : 0 < 2 ^ (- e2)) by (apply pow2_pos; lia).
    rewrite <- (round_half_even_scale (10 * Zpos m2) (2 ^ (- e2)) (2 ^ (e2 - e1))) by assumption.
    rewrite <- Z.pow_add_r by lia.
    replace (- e2 + (e2 - e1)) with (- e1) by lia.
    apply round_half_even_mono; [apply pow2_pos; lia|].
    assert (2 ^ 52 <= Zpos m2) by (apply Hm2; lia).
    assert (2 ^ 1 <= 2 ^ (e2 - e1)) by (apply Z.pow_le_mono_r; lia).
    change (2 ^ 1) with 2 in *. change (2 ^ 53) with (2 * 2 ^ 52) in Hm1.
    nia.
  - subst e2. apply round_half_even_mono; [apply pow2_pos; lia|lia].
Qed.

Local Open Scope float_scope.

(** A raw hardness strictly between the bounds rounds to its number of
    tenths, which lies between 200 and 12000. *)
Lemma round1_between (x : float) :
  (20 <? x) = true -> (1200 <? x) = false ->
  exists m e, Prim2SF x = S754_finite false m e /\ (e < 0)%Z /\
              (200 <= decimal_tenths m e <= 12000)%Z /\
              py_round1 x = float_of_tenths (decimal_tenths m e).
Proof.
  intros H1 H2. rewrite ltb_spec in H1, H2.
  change (Prim2SF 20) with (S754_finite false 5629499534213120 (-48)) in H1.
  change (Prim2SF 1200) with (S754_finite false 5277655813324800 (-42)) in H2.
  unfold py_round1.
  destruct (Prim2SF x) as [s|s| |s m e] eqn:Hx; try discriminate.
  - destruct s; discriminate.
  - apply SFltb_pos_finite_inv in H1. destruct H1 as [-> H1].
    apply SFltb_pos_finite_false_inv in H2.
    assert (Hlo : (200 <= decimal_tenths m e)%Z).
    { apply (tenths_above 200 5629499534213120 (-48) x m e); try assumption;
        try lia; vm_compute; try reflexivity; discriminate. }
    assert (Hhi : (decimal_tenths m e <= 12000)%Z).
    { apply (tenths_not_above 12000 5277655813324800 (-42) x m e); try assumption;
        try lia; vm_compute; try reflexivity; discriminate. }
    exists m, e. split; [reflexivity|]. split; [lia|]. split; [lia|].
    cbv zeta.
    replace (decimal_tenths m e <? 2 ^ 53)%Z with true; [reflexivity|].
    symmetry. apply Z.ltb_lt. change (2 ^ 53)%Z with 9007199254740992%Z. lia.
Qed.

Lemma clamp_hv_tenths (n : Z) :
  (200 <= n <= 12000)%Z -> clamp_hv (float_of_tenths n) = float_of_tenths n.
Proof.
  intros Hn.
  assert (H1 : (20 <=? float_of_tenths n) = true).
  { apply (tenths_at_least 20 200 (2 ^ 9) n threshold_ok_20). lia. }
  assert (H2 : (1200 <? float_of_tenths n) = false).
  { apply (tenths_at_most 1200 12000 (2 ^ 15) n threshold_ok_1200). lia. }
  destruct (20 <? float_of_tenths n) eqn:E.
  - apply clamp_hv_mid; assumption.
  - rewrite clamp_hv_low by exact E. symmetry.
    apply leb_not_ltb_eq; try assumption. eexists _, _, _. reflexivity.
Qed.

Lemma tenths_leb (n1 n2 : Z) :
  (200 <= n1)%Z -> (n1 <= n2)%Z -> (n2 <= 12000)%Z ->
  (float_of_tenths n1 <=? float_of_tenths n2) = true.
Proof.
  intros H1 H H2.
  destruct (grid_monotone (Z.to_nat (n2 - n1)) n1 ltac:(lia) ltac:(lia)) as (I1 & _).
  replace (n1 + Z.of_nat (Z.to_nat (n2 - n1)))%Z with n2 in I1 by lia.
  destruct (Z.eq_dec n1 n2) as [->|Hne].
  - apply leb_refl_tenths. lia.
  - apply ltb_leb. apply I1. lia.
Qed.

(** [max(20.0, min(round(x, 1), 1200.0))] is monotone in [x]. *)
Lemma clamp_round_mono (x y : float) :
  (x <=? y) = true ->
  (clamp_hv (py_round1 x) <=? clamp_hv (py_round1 y)) = true.
Proof.
  intros Hle.
  destruct (1200 <? y) eqn:Ey.
  { rewrite (clamp_hv_high (py_round1 y)).
    - apply clamp_hv_range.
    - apply (round1_above 1200 12000 (2 ^ 15) threshold_ok_1200). exact Ey. }
  destruct (20 <? x) eqn:Ex.
  2:{ rewrite (clamp_hv_low (py_round1 x)).
      - apply clamp_hv_range.
      - apply (round1_not_above 20 200 (2 ^ 9) threshold_ok_20). exact Ex. }
  assert (Ey' : (20 <? y) = true) by (apply (ltb_leb_trans 20 x y); assumption).
  assert (Ex' : (1200 <? x) = false).
  { destruct (1200 <? x) eqn:E; [|reflexivity].
    rewrite (ltb_leb_trans 1200 x y E Hle) in Ey. discriminate. }
  destruct (round1_between x Ex Ex') as (m1 & e1 & Hx & He1 & Hn1 & ->).
  destruct (round1_between y Ey' Ey) as (m2 & e2 & Hy & He2 & Hn2 & ->).
  rewrite !clamp_hv_tenths by assumption.
  apply tenths_leb; try lia.
  apply (decimal_tenths_mono x y); assumption.
Qed.

End RoundingOrder.

(** X6.  The last line of [estimate_hv] keeps the order of raw
    hardnesses: of two inputs, the one with the lower (or equal) raw
    hardness never gets the higher estimate. *)
Theorem estimate_hv_monotone_in_raw
    (matrix1 matrix2 : string) (comp1 comp2 : dict float) (heat1 heat2 : string) :
  (raw_hv matrix1 comp1 heat1 <=? raw_hv matrix2 comp2 heat2) = true ->
  (estimate_hv matrix1 comp1 heat1 <=? estimate_hv matrix2 comp2 heat2) = true.
Proof.
  intros H. unfold estimate_hv. cbv zeta. apply (clamp_round_mono _ _ H).
Qed.

Lemma estimate_hv_monotone_in_raw_witness :
  (estimate_hv "Cu" [("Sn", 8.04)] "Annealing"
     <=? estimate_hv "Cu" [("Sn", 8.06)] "Annealing") = true.
Proof.
  apply (estimate_hv_monotone_in_raw "Cu" "Cu" [("Sn", 8.04)] [("Sn", 8.06)]
           "Annealing" "Annealing").
  reflexivity.
Defined.

(** * Entries of zero percent *)

Section ZeroPercent.

Lemma same_or_zeros_refl (x : float) : same_or_zeros x x.
Proof. left. reflexivity. Qed.

Lemma add_zero_r (a z : float) (s : bool) :
  Prim2SF z = S754_zero s -> same_or_zeros (a + z) a.
Proof.
  intros Hz. destruct (Prim2SF a) as [sa|sa| |sa ma ea] eqn:Ha.
  - right. exists (if Bool.eqb sa s then sa else false), sa. split; [|exact Ha].
    rewrite add_spec, Ha, Hz. destruct sa, s; reflexivity.
  - left. apply Prim2SF_inj. rewrite add_spec, Ha, Hz. reflexivity.
  - left. apply Prim2SF_inj. rewrite add_spec, Ha, Hz. reflexivity.
  - left. apply Prim2SF_inj. rewrite add_spec, Ha, Hz. reflexivity.
Qed.

Lemma add_same_l (a b t : float) : same_or_zeros a b -> same_or_zeros (a + t) (b + t).
Proof.
  intros [->|(s & s' & Ha & Hb)]; [left; reflexivity|].
  destruct (Prim2SF t) as [st|st| |st mt et] eqn:Ht.
  - right. exists (if Bool.eqb s st then s else false), (if Bool.eqb s' st then s' else false).
    rewrite !add_spec, Ha, Hb, Ht. split; [destruct s, st|destruct s', st]; reflexivity.
  - left. apply Prim2SF_inj. rewrite !add_spec, Ha, Hb, Ht. reflexivity.
  - left. apply Prim2SF_inj. rewrite !add_spec, Ha, Hb, Ht. reflexivity.
  - left. apply Prim2SF_inj. rewrite !add_spec, Ha, Hb, Ht. reflexivity.
Qed.

Lemma add_comm (a b : float) : a + b = b + a.
Proof. apply Prim2SF_inj. rewrite !add_spec. apply SFadd_comm. Qed.

Lemma add_same_r (c a b : float) : same_or_zeros a b -> same_or_zeros (c + a) (c + b).
Proof. intros H. rewrite (add_comm c a), (add_comm c b). apply add_same_l. exact H. Qed.

Lemma mul_same_l (a b h : float) : same_or_zeros a b -> same_or_zeros (a * h) (b * h).
Proof.
  intros [->|(s & s' & Ha & Hb)]; [left; reflexivity|].
  destruct (Prim2SF h) as [sh|sh| |sh mh eh] eqn:Hh.
  - right. exists (xorb s sh), (xorb s' sh). rewrite !mul_spec, Ha, Hb, Hh. split; reflexivity.
  - left. apply Prim2SF_inj. rewrite !mul_spec, Ha, Hb, Hh. reflexivity.
  - left. apply Prim2SF_inj. rewrite !mul_spec, Ha, Hb, Hh. reflexivity.
  - right. exists (xorb s sh), (xorb s' sh). rewrite !mul_spec, Ha, Hb, Hh. split; reflexivity.
Qed.

Lemma fold_add_same (ts : list float) :
  forall a b, same_or_zeros a b -> same_or_zeros (fold_left add ts a) (fold_left add ts b).
Proof.
  induction ts as [|t ts IH]; intros a b H; simpl; [exact H|].
  apply IH. apply add_same_l. exact H.
Qed.

(** A zero term anywhere in the sum changes at most the sign of a zero
    result. *)
Lemma py_sum_zero_term (ts1 ts2 : list float) (z : float) (s : bool) :
  Prim2SF z = S754_zero s ->
  same_or_zeros (py_sum (ts1 ++ z :: ts2)%list) (py_sum (ts1 ++ ts2)%list).
Proof.
  intros Hz. unfold py_sum. rewrite !fold_left_app. simpl.
  apply fold_add_same. apply (add_zero_r _ z s Hz).
Qed.

Lemma clamp_round_same (x y : float) :
  same_or_zeros x y -> clamp_hv (py_round1 x) = clamp_hv (py_round1 y).
Proof.
  intros [->|(s & s' & Hx & Hy)]; [reflexivity|].
  rewrite !clamp_hv_low; [reflexivity| |].
  - unfold py_round1. rewrite Hy. rewrite ltb_spec, Hy. reflexivity.
  - unfold py_round1. rewrite Hx. rewrite ltb_spec, Hx. reflexivity.
Qed.

(** Every element factor times [0.0] is a zero. *)
Lemma element_term_zero (el : string) :
  exists s, Prim2SF (element_term (el, 0.0)) = S754_zero s.
Proof.
  unfold element_term. simpl fst. simpl snd.
  generalize (dict_get_forallb (fun f => is_zero (f * 0.0))
                ELEMENT_FACTOR el DEFAULT_ELEM_FACTOR eq_refl eq_refl).
  cbv beta. unfold is_zero. rewrite eqb_spec.
  change (Prim2SF 0) with (S754_zero false). unfold SFeqb.
  destruct (Prim2SF (dict_get ELEMENT_FACTOR el DEFAULT_ELEM_FACTOR * 0.0))
    as [s|s| |s m e]; try discriminate.
  - intros _. exists s. reflexivity.
  - destruct s; discriminate.
  - destruct s; discriminate.
Qed.

Lemma not_in_keys_absent {V : Type} (d : dict V) (k : string) :
  ~ In k (keys d) -> has_key d k = false.
Proof.
  unfold has_key, keys. induction d as [|[k' v'] d IH]; simpl; [reflexivity|].
  intros H. apply orb_false_intro.
  - apply String.eqb_neq. intros ->. apply H. left. reflexivity.
  - apply IH. intros Hin. apply H. right. exact Hin.
Qed.

(** Dropping an entry that holds the default does not change a lookup. *)
Lemma dict_get_drop_default {V : Type} (d1 d2 : dict V) (k' k : string) (v : V) :
  NoDup (keys (d1 ++ (k', v) :: d2)%list) ->
  dict_get (d1 ++ (k', v) :: d2)%list k v = dict_get (d1 ++ d2)%list k v.
Proof.
  induction d1 as [|[k1 v1] d1 IH]; simpl; intros Hnd.
  - destruct (String.eqb_spec k' k) as [->|Hne]; [|reflexivity].
    symmetry. apply dict_get_absent. apply not_in_keys_absent.
    inversion Hnd; assumption.
  - destruct (String.eqb k1 k); [reflexivity|]. apply IH. inversion Hnd; assumption.
Qed.

Lemma non_carbon_terms_app (c1 c2 : dict float) :
  map element_term (filter not_carbon (c1 ++ c2)%list)
  = (map element_term (filter not_carbon c1) ++ map element_term (filter not_carbon c2))%list.
Proof. rewrite filter_app, map_app. reflexivity. Qed.

End ZeroPercent.

(** X7.  An entry of 0.0 percent, whatever the element and wherever it
    stands in the composition, does not change the estimate. *)
Theorem zero_percent_entry_ignored
    (matrix heat : string) (comp1 comp2 : dict float) (el : string) :
  NoDup (keys (comp1 ++ (el, 0.0) :: comp2)%list) ->
  estimate_hv matrix (comp1 ++ (el, 0.0) :: comp2)%list heat
  = estimate_hv matrix (comp1 ++ comp2)%list heat.
Proof.
  intros Hnd. unfold estimate_hv. cbv zeta.
  fold (clamp_hv (py_round1 (raw_hv matrix (comp1 ++ (el, 0.0) :: comp2)%list heat))).
  fold (clamp_hv (py_round1 (raw_hv matrix (comp1 ++ comp2)%list heat))).
  apply clamp_round_same. unfold raw_hv. cbv zeta.
  rewrite (dict_get_drop_default comp1 comp2 el "C" 0.0 Hnd).
  apply mul_same_l. apply add_same_r.
  unfold element_contribution.
  rewrite !non_carbon_terms_app. simpl filter.
  destruct (not_carbon (el, 0.0)); [|apply same_or_zeros_refl].
  simpl map. destruct (element_term_zero el) as [s Hs].
  apply (py_sum_zero_term _ _ _ s Hs).
Qed.

Lemma zero_percent_entry_witness :
  estimate_hv "Fe" [("C", 0.4); ("Pb", 0.0); ("Cr", 1.0)] "Hardening"
  = estimate_hv "Fe" [("C", 0.4); ("Cr", 1.0)] "Hardening".
Proof.
  apply (zero_percent_entry_ignored "Fe" "Hardening" [("C", 0.4)] [("Cr", 1.0)] "Pb").
  nodup_keys.
Defined.

(** * Item assignment *)

Section ItemAssignment.

Context {V : Type}.

Lemma dict_get_set (d : dict V) (k k' : string) (v default : V) :
  dict_get (dict_set d k v) k' default
  = if String.eqb k k' then v else dict_get d k' default.
Proof.
  induction d as [|[k1 v1] d IH]; simpl.
  - reflexivity.
  - destruct (String.eqb_spec k1 k) as [->|Hne]; simpl.
    + destruct (String.eqb k k'); reflexivity.
    + rewrite IH. destruct (String.eqb_spec k1 k') as [->|Hne'];
        [|reflexivity].
      destruct (String.eqb_spec k k') as [->|_]; [congruence|reflexivity].
Qed.

Lemma dict_set_absent (d : dict V) (k : string) (v : V) :
  has_key d k = false -> dict_set d k v = (d ++ [(k, v)])%list.
Proof.
  unfold has_key, keys. induction d as [|[k1 v1] d IH]; simpl; [reflexivity|].
  intros H. apply orb_false_elim in H. destruct H as [H1 H2].
  rewrite String.eqb_sym, H1. f_equal. apply IH. exact H2.
Qed.

Lemma dict_set_present (d : dict V) (k : string) (v : V) :
  has_key d k = true -> keys (dict_set d k v) = keys d.
Proof.
  unfold has_key, keys. induction d as [|[k1 v1] d IH]; simpl; [discriminate|].
  intros H. destruct (String.eqb_spec k1 k) as [->|Hne]; simpl; [reflexivity|].
  f_equal. apply IH. apply orb_prop in H. destruct H as [H|H]; [|exact H].
  apply String.eqb_eq in H. congruence.
Qed.

Lemma has_key_In (d : dict V) (k : string) : has_key d k = true <-> In k (keys d).
Proof.
  unfold has_key. rewrite existsb_exists. split.
  - intros (x & Hin & Heq). apply String.eqb_eq in Heq. subst. exact Hin.
  - intros Hin. exists k. split; [exact Hin|apply String.eqb_refl].
Qed.

Lemma keys_dict_set (d : dict V) (k : string) (v : V) :
  keys (dict_set d k v) = if has_key d k then keys d else (keys d ++ [k])%list.
Proof.
  destruct (has_key d k) eqn:E.
  - apply dict_set_present. exact E.
  - rewrite dict_set_absent by exact E. unfold keys. rewrite map_app. reflexivity.
Qed.

Lemma dict_set_nodup (d : dict V) (k : string) (v : V) :
  NoDup (keys d) -> NoDup (keys (dict_set d k v)).
Proof.
  intros H. rewrite keys_dict_set. destruct (has_key d k) eqn:E; [exact H|].
  apply NoDup_app; [exact H|constructor; [simpl; tauto|constructor]|].
  intros x Hx [<-|[]]. apply has_key_In in Hx. congruence.
Qed.

Lemma has_key_set (d : dict V) (k k' : string) (v : V) :
  has_key (dict_set d k v) k' = String.eqb k k' || has_key d k'.
Proof.
  unfold has_key at 1. rewrite keys_dict_set.
  destruct (has_key d k) eqn:E.
  - fold (has_key d k'). destruct (String.eqb_spec k k') as [->|_]; [|reflexivity].
    rewrite E. reflexivity.
  - rewrite existsb_app. fold (has_key d k'). simpl.
    rewrite orb_false_r, orb_comm, String.eqb_sym. reflexivity.
Qed.

Lemma dict_set_length (d : dict V) (k : string) (v : V) :
  (List.length (dict_set d k v) <= S (List.length d))%nat.
Proof.
  induction d as [|[k1 v1] d IH]; simpl; [lia|].
  destruct (String.eqb k1 k); simpl; lia.
Qed.

End ItemAssignment.

(** * The single-alloy form *)

Section Form.

Lemma form_composition_snoc (fields : list (string * float)) (field : string * float) :
  form_composition (fields ++ [field])%list = form_step (form_composition fields) field.
Proof. unfold form_composition. rewrite fold_left_app. reflexivity. Qed.

End Form.

(** X8.  The composition built by the single-alloy form is a proper
    dictionary: its keys are pairwise distinct, the empty name is never a
    key, and it has no more entries than there are fields. *)
Theorem form_composition_well_formed (fields : list (string * float)) :
  NoDup (keys (form_composition fields)) /\
  has_key (form_composition fields) "" = false /\
  (List.length (form_composition fields) <= List.length fields)%nat.
Proof.
  induction fields as [|field fields IH] using rev_ind.
  - repeat split; simpl; try constructor.
  - destruct IH as (I1 & I2 & I3).
    rewrite form_composition_snoc, length_app. unfold form_step. simpl List.length.
    destruct (String.eqb_spec (fst field) "") as [He|He].
    + repeat split; try assumption. lia.
    + split; [apply dict_set_nodup; exact I1|]. split.
      * rewrite has_key_set, I2.
        replace (String.eqb (fst field) "") with false; [reflexivity|].
        symmetry. apply String.eqb_neq. exact He.
      * generalize (dict_set_length (form_composition fields) (fst field) (snd field)). lia.
Qed.

(** X9.  In the form the value entered last under a name wins: looking a
    non-empty name up in the built composition gives the percent of the
    last field with that name, or the default when no field has it. *)
Theorem form_composition_last_wins
    (fields : list (string * float)) (k : string) (default : float) :
  k <> "" ->
  dict_get (form_composition fields) k default
  = match last_field fields k with
    | Some field => snd field
    | None => default
    end.
Proof.
  intros Hk. unfold last_field.
  induction fields as [|field fields IH] using rev_ind; [reflexivity|].
  rewrite form_composition_snoc, rev_app_distr. simpl. unfold form_step.
  destruct (String.eqb_spec (fst field) "") as [He|He].
  - replace (String.eqb (fst field) k) with false; [exact IH|].
    symmetry. apply String.eqb_neq. congruence.
  - rewrite dict_get_set. destruct (String.eqb (fst field) k); [reflexivity|exact IH].
Qed.

Lemma form_composition_last_wins_witness :
  dict_get (form_composition [("Cr", 1.0); ("", 5.0); ("Ni", 2.0); ("Cr", 1.5)]) "Cr" 0.0
  = 1.5.
Proof.
  rewrite (form_composition_last_wins
             [("Cr", 1.0); ("", 5.0); ("Ni", 2.0); ("Cr", 1.5)] "Cr" 0.0).
  - reflexivity.
  - discriminate.
Defined.

(** X10.  When the names entered are non-empty and pairwise distinct, the
    form hands the fields to the estimator unchanged and in the order
    of entry. *)
Theorem form_composition_distinct (fields : list (string * float)) :
  NoDup (map fst fields) -> ~ In "" (map fst fields) ->
  form_composition fields = fields.
Proof.
  induction fields as [|field fields IH] using rev_ind; [reflexivity|].
  rewrite map_app. simpl. intros Hnd Hne.
  rewrite form_composition_snoc.
  assert (Hnd' : NoDup (map fst fields)).
  { apply NoDup_app_remove_r in Hnd. exact Hnd. }
  assert (Hin : ~ In (fst field) (map fst fields)).
  { intros Hin. apply NoDup_remove_2 in Hnd. apply Hnd.
    rewrite app_nil_r. exact Hin. }
  rewrite IH; [|exact Hnd'|intros H; apply Hne; apply in_or_app; left; exact H].
  unfold form_step.
  destruct (String.eqb_spec (fst field) "") as [He|He].
  - exfalso. apply Hne. apply in_or_app. right. left. exact He.
  - rewrite dict_set_absent.
    + destruct field; reflexivity.
    + apply not_in_keys_absent. exact Hin.
Qed.

Lemma form_composition_distinct_witness :
  form_composition [("C", 0.4); ("Cr", 1.0); ("Mo", 0.2)]
  = [("C", 0.4); ("Cr", 1.0); ("Mo", 0.2)].
Proof.
  apply form_composition_distinct.
  - simpl. repeat (constructor; [simpl; intuition discriminate|]). constructor.
  - simpl. intuition discriminate.
Defined.

(** * The estimator against the formula of the specification *)

Section Specification.

(** ** Lookups and the raw hardness *)

Lemma spec_lookup_dict_get {V : Type} (d : dict V) (k : string) (v : V) :
  spec_lookup d k v = dict_get d k v.
Proof.
  unfold spec_lookup. induction d as [|[k' v'] d IH]; simpl; [reflexivity|].
  destruct (String.eqb k' k); [reflexivity|exact IH].
Qed.

Lemma spec_number_base (matrix : string) :
  spec_number (dict_get BASE_HV matrix 100%Z) = float_of_int (dict_get BASE_HV matrix 100%Z).
Proof.
  generalize (dict_get_in_values BASE_HV matrix 100%Z).
  generalize (dict_get BASE_HV matrix 100%Z). intros z Hz.
  unfold values, BASE_HV in Hz. simpl in Hz.
  repeat (destruct Hz as [<-|Hz]; [reflexivity|]). destruct Hz.
Qed.

Lemma spec_generic_from_sum (composition : dict float) :
  forall total,
    spec_generic_from total composition
    = fold_left add (map element_term (filter not_carbon composition)) total.
Proof.
  induction composition as [|[el pct] c IH]; intros total; [reflexivity|].
  cbn [spec_generic_from filter]. unfold not_carbon at 1. cbn [fst].
  destruct (String.eqb el "C"); cbn [negb].
  - apply IH.
  - cbn [map fold_left]. rewrite IH. unfold element_term at 2. cbn [fst snd].
    rewrite spec_lookup_dict_get. reflexivity.
Qed.

Lemma spec_raw_hardness_raw_hv
    (matrix : string) (composition : dict float) (heat_treatment : string) :
  spec_raw_hardness matrix composition heat_treatment
  = raw_hv matrix composition heat_treatment.
Proof.
  unfold spec_raw_hardness, raw_hv. cbv zeta.
  rewrite !spec_lookup_dict_get, spec_number_base, <- carbon_contribution_spec.
  unfold spec_generic_contribution, element_contribution, py_sum.
  rewrite spec_generic_from_sum. reflexivity.
Qed.

(** ** The clamp *)

Lemma spec_clamp_clamp_hv (r : float) : spec_clamp r = clamp_hv r.
Proof.
  unfold spec_clamp.
  destruct (20 <=? r) eqn:E1; cbn [andb].
  - destruct (leb_not_nan _ _ E1) as [N20 Nr].
    assert (N1200 : Prim2SF 1200 <> S754_nan) by discriminate.
    rewrite leb_fkey in E1 by assumption.
    rewrite (leb_fkey r 1200), (ltb_fkey 1200 r) by assumption.
    destruct (Z.leb_spec (fkey r) (fkey 1200)) as [H2|H2].
    + destruct (20 <? r) eqn:E3.
      * symmetry. apply clamp_hv_mid; [exact E3|].
        rewrite ltb_fkey by assumption. apply Z.ltb_ge. exact H2.
      * rewrite clamp_hv_low by exact E3.
        apply leb_not_ltb_eq; [eexists _, _, _; reflexivity| |exact E3].
        rewrite leb_fkey by assumption. exact E1.
    + replace (fkey 1200 <? fkey r)%Z with true by (symmetry; apply Z.ltb_lt; exact H2).
      symmetry. apply clamp_hv_high.
      rewrite leb_fkey by assumption. apply Z.leb_le. lia.
  - assert (E3 : (20 <? r) = false).
    { destruct (20 <? r) eqn:E; [|reflexivity]. apply ltb_leb in E. congruence. }
    replace (1200 <? r) with false.
    + symmetry. apply clamp_hv_low. exact E3.
    + destruct (1200 <? r) eqn:E; [|reflexivity].
      apply ltb_1200_20 in E. congruence.
Qed.

(** ** One decimal place *)

Local Open Scope Z_scope.

(** [round_half_even a b] is nearest to [a / b], and even when two
    integers are equally near. *)
Lemma round_half_even_nearest (a b : Z) :
  0 < b ->
  let n := round_half_even a b in
  2 * Z.abs (a - n * b) < b \/ (2 * Z.abs (a - n * b) = b /\ Z.even n = true).
Proof.
  intros Hb. cbv zeta. unfold round_half_even.
  generalize (Z.div_mod a b ltac:(lia)) (Z.mod_pos_bound a b Hb).
  set (q := a / b). set (r := a mod b). intros Hd Hr.
  destruct (Z.compare_spec (2 * r) b) as [He|Hl|Hg].
  - destruct (Z.even q) eqn:Eq.
    + right. split; [|exact Eq]. replace (a - q * b) with r by lia. lia.
    + right. split.
      * replace (a - (q + 1) * b) with (r - b) by lia. lia.
      * replace (q + 1) with (Z.succ q) by lia.
        rewrite Z.even_succ, <- Z.negb_even, Eq. reflexivity.
  - left. replace (a - q * b) with r by lia. lia.
  - left. replace (a - (q + 1) * b) with (r - b) by lia. lia.
Qed.

(** At most one number of tenths is nearest in the sense of
    [nearest_tenths]. *)
Lemma nearest_tenths_unique (x : float) (n n' : Z) :
  nearest_tenths x n = true -> nearest_tenths x n' = true -> n = n'.
Proof.
  unfold nearest_tenths.
  destruct (Prim2SF x) as [s|s| |s m e]; try discriminate.
  destruct s; [discriminate|]. cbv zeta.
  set (num := 10 * Zpos m * 2 ^ Z.max 0 e). set (den := 2 ^ Z.max 0 (- e)).
  assert (Hden : 0 < den) by (apply pow2_pos; lia).
  intros H H'.
  apply orb_prop in H. apply orb_prop in H'.
  assert (K : 2 * Z.abs (num - n * den) < den \/
              (2 * Z.abs (num - n * den) = den /\ Z.even n = true)).
  { destruct H as [H|H]; [left; apply Z.ltb_lt; exact H|right].
    apply andb_prop in H. destruct H as [H1 H2]. apply Z.eqb_eq in H1. tauto. }
  assert (K' : 2 * Z.abs (num - n' * den) < den \/
               (2 * Z.abs (num - n' * den) = den /\ Z.even n' = true)).
  { destruct H' as [H'|H']; [left; apply Z.ltb_lt; exact H'|right].
    apply andb_prop in H'. destruct H' as [H1 H2]. apply Z.eqb_eq in H1. tauto. }
  clear H H'.
  destruct (Z.lt_trichotomy n n') as [Hlt|[Heq|Hgt]]; [exfalso|exact Heq|exfalso].
  - assert (Hs : n' = n + 1 \/ n + 2 <= n') by lia.
    destruct Hs as [->|Hs].
    + destruct K as [K|[K Ke]], K' as [K'|[K' Ke']]; try nia.
      replace (n + 1) with (Z.succ n) in Ke' by lia.
      rewrite Z.even_succ, <- Z.negb_even, Ke in Ke'. discriminate.
    + assert (2 * den <= (n' - n) * den) by nia.
      destruct K as [K|[K _]], K' as [K'|[K' _]]; nia.
  - assert (Hs : n = n' + 1 \/ n' + 2 <= n) by lia.
    destruct Hs as [->|Hs].
    + destruct K as [K|[K Ke]], K' as [K'|[K' Ke']]; try nia.
      replace (n' + 1) with (Z.succ n') in Ke by lia.
      rewrite Z.even_succ, <- Z.negb_even, Ke' in Ke. discriminate.
    + assert (2 * den <= (n - n') * den) by nia.
      destruct K as [K|[K _]], K' as [K'|[K' _]]; nia.
Qed.

Lemma nearest_decimal_tenths (x : float) (m : positive) (e : Z) :
  Prim2SF x = S754_finite false m e -> e < 0 ->
  nearest_tenths x (decimal_tenths m e) = true.
Proof.
  intros Hx He. unfold nearest_tenths, decimal_tenths. rewrite Hx. cbv zeta.
  replace (0 <=? e) with false by (symmetry; apply Z.leb_gt; lia).
  replace (Z.max 0 e) with 0 by lia. replace (Z.max 0 (- e)) with (- e) by lia.
  change (2 ^ 0) with 1. rewrite Z.mul_1_r.
  assert (Hb : 0 < 2 ^ (- e)) by (apply pow2_pos; lia).
  destruct (round_half_even_nearest (10 * Zpos m) (2 ^ (- e)) Hb) as [H|[H1 H2]].
  - apply orb_true_iff. left. apply Z.ltb_lt. exact H.
  - apply orb_true_iff. right. rewrite H2, andb_true_r. apply Z.eqb_eq. exact H1.
Qed.

Lemma spec_tenths_float_of_tenths (n : Z) :
  0 <= n < 2 ^ 63 -> spec_tenths n = float_of_tenths n.
Proof.
  intros Hn. unfold spec_tenths, float_of_tenths.
  rewrite <- (SF2Prim_Prim2SF (of_uint63 (Uint63.of_Z n) / 10)). f_equal.
  rewrite div_spec, of_uint63_spec, Uint63.of_Z_spec, Z.mod_small.
  - reflexivity.
  - change wB with (2 ^ 63). exact Hn.
Qed.

Local Open Scope float_scope.

(** A clamped value rounds to its nearest number of tenths. *)
Lemma round1_clamped (x : float) :
  exists n : Z,
    nearest_tenths (clamp_hv x) n = true /\ (200 <= n <= 12000)%Z /\
    py_round1 (clamp_hv x) = float_of_tenths n.
Proof.
  destruct (clamp_hv_range x) as [H1 H2].
  destruct (20 <? clamp_hv x) eqn:E.
  - assert (E2 : (1200 <? clamp_hv x) = false).
    { destruct (1200 <? clamp_hv x) eqn:E2; [|reflexivity].
      apply ltb_not_leb in E2. congruence. }
    destruct (round1_between (clamp_hv x) E E2) as (m & e & Hx & He & Hn & Hr).
    exists (decimal_tenths m e). split; [|split; assumption].
    apply (nearest_decimal_tenths _ m e Hx He).
  - assert (Hx : clamp_hv x = 20).
    { apply leb_not_ltb_eq; [eexists _, _, _; reflexivity|exact H1|exact E]. }
    rewrite Hx. exists 200%Z. split; [vm_compute; reflexivity|].
    split; [lia|reflexivity].
Qed.

End Specification.

(** C1.  For every matrix, composition and heat treatment, [estimate_hv]
    returns the raw hardness [(base + carbon + generic) * multiplier] of
    the specification, clamped to [[20.0, 1200.0]] and then rounded to one
    decimal place: the result is the float of [n / 10] for the number of
    tenths [n] nearest to the clamped raw hardness.  Base and multiplier
    are the table entries or the defaults 100 and 1.0, the carbon
    contribution has its three cases, and the generic contribution sums
    factor times weight percent over the entries other than "C" with the
    default factor 2.0.  (The source rounds first and clamps afterwards;
    both orders give the same float.) *)
Theorem estimate_hv_is_clamped_rounded_formula
    (matrix : string) (composition : dict float) (heat_treatment : string) :
  exists n : Z,
    nearest_tenths (spec_clamp (spec_raw_hardness matrix composition heat_treatment)) n
    = true /\
    estimate_hv matrix composition heat_treatment = spec_tenths n.
Proof.
  rewrite spec_raw_hardness_raw_hv, spec_clamp_clamp_hv.
  destruct (round1_clamped (raw_hv matrix composition heat_treatment))
    as (n & Hn & Hr & Heq).
  exists n. split; [exact Hn|].
  rewrite spec_tenths_float_of_tenths by (change (2 ^ 63)%Z with 9223372036854775808%Z; lia).
  rewrite <- Heq, <- clamp_hv_round1. reflexivity.
Qed.

(** * Integers as floats *)

Section IntegerToFloat.

Local Open Scope Z_scope.

(** The round bit after a shift is the last bit shifted out. *)
Lemma shr_1_r (mrs : shr_record) :
  0 <= shr_m mrs -> shr_r (shr_1 mrs) = Z.odd (shr_m mrs).
Proof.
  destruct mrs as [m r s]; simpl. intros Hm.
  destruct m as [|p|p]; try lia; [reflexivity|].
  destruct p; reflexivity.
Qed.

Lemma iter_shr_1_r (p : positive) :
  forall mrs, 0 <= shr_m mrs ->
    shr_r (iter_pos shr_1 p mrs) = Z.odd (shr_m mrs / 2 ^ (Zpos p - 1)).
Proof.
  induction p as [p IH|p IH|]; intros mrs Hm; simpl iter_pos.
  - assert (Hp : 0 < 2 ^ Zpos p) by (apply pow2_pos; lia).
    assert (Hp1 : 0 < 2 ^ (Zpos p - 1)) by (apply pow2_pos; lia).
    assert (H1 : 0 <= shr_m (shr_1 mrs)).
    { rewrite shr_1_m by assumption. apply Z.div_pos; lia. }
    assert (H2 : 0 <= shr_m (iter_pos shr_1 p (shr_1 mrs))).
    { rewrite iter_shr_1_m by assumption. apply Z.div_pos; lia. }
    rewrite IH, iter_shr_1_m, shr_1_m by assumption.
    rewrite !Z.div_div by lia. f_equal. f_equal.
    change 2 with (2 ^ 1) at 1. rewrite <- !Z.pow_add_r by lia. f_equal. lia.
  - assert (Hp : 0 < 2 ^ Zpos p) by (apply pow2_pos; lia).
    assert (Hp1 : 0 < 2 ^ (Zpos p - 1)) by (apply pow2_pos; lia).
    assert (H2 : 0 <= shr_m (iter_pos shr_1 p mrs)).
    { rewrite iter_shr_1_m by assumption. apply Z.div_pos; lia. }
    rewrite IH, iter_shr_1_m by assumption.
    rewrite !Z.div_div by lia. f_equal. f_equal.
    rewrite <- !Z.pow_add_r by lia. f_equal. lia.
  - rewrite shr_1_r by assumption. simpl. rewrite Z.div_1_r. reflexivity.
Qed.

(** Rounding to nearest even moves up by at most one; it stays when the
    round bit is clear and moves up from an odd mantissa when it is set. *)
Lemma round_record (mrs : shr_record) :
  let m2 := round_nearest_even (shr_m mrs) (loc_of_shr_record mrs) in
  shr_m mrs <= m2 <= shr_m mrs + 1 /\
  (shr_r mrs = false -> m2 = shr_m mrs) /\
  (shr_r mrs = true -> Z.even (shr_m mrs) = false -> m2 = shr_m mrs + 1).
Proof.
  destruct mrs as [m r s]. cbv zeta. simpl shr_m. simpl shr_r.
  destruct r, s; simpl; try (destruct (Z.even m) eqn:E);
    repeat split; intros; try lia; try discriminate; try congruence.
Qed.

(** [binary_round_aux] on an exact mantissa that has [k > 0] bits too
    many. *)
Lemma binary_round_aux_shift (s : bool) (m e : Z) (k : positive) :
  0 <= m -> fexp64 (Zdigits2 m + e) - e = Zpos k ->
  exists m2,
    m / 2 ^ Zpos k <= m2 <= m / 2 ^ Zpos k + 1 /\
    (Z.odd (m / 2 ^ (Zpos k - 1)) = false -> m2 = m / 2 ^ Zpos k) /\
    (Z.odd (m / 2 ^ (Zpos k - 1)) = true -> Z.even (m / 2 ^ Zpos k) = false ->
     m2 = m / 2 ^ Zpos k + 1) /\
    binary_round_aux prec emax s m e loc_Exact =
      sf_build s (m2 / 2 ^ shift_of m2 (e + Zpos k))
                 (e + Zpos k + shift_of m2 (e + Zpos k)).
Proof.
  intros Hm Hk. unfold binary_round_aux.
  unfold shr_fexp at 1. change (fexp prec emax) with fexp64. rewrite Hk.
  unfold shr at 1. cbn [shr_record_of_loc].
  set (mrs0 := {| shr_m := m; shr_r := false; shr_s := false |}).
  assert (H0 : 0 <= shr_m mrs0) by exact Hm.
  generalize (iter_shr_1_m k mrs0 H0) (iter_shr_1_r k mrs0 H0).
  set (mrs' := iter_pos shr_1 k mrs0). simpl (shr_m mrs0). intros Hm' Hr'.
  destruct (round_record mrs') as (R1 & R2 & R3).
  set (m2 := round_nearest_even (shr_m mrs') (loc_of_shr_record mrs')) in *.
  rewrite Hm' in R1, R2, R3. rewrite Hr' in R2, R3.
  assert (Hp : 0 < 2 ^ Zpos k) by (apply pow2_pos; lia).
  assert (Hm2 : 0 <= m2).
  { assert (0 <= m / 2 ^ Zpos k) by (apply Z.div_pos; lia). lia. }
  destruct (shr_fexp_spec m2 (e + Zpos k) loc_Exact Hm2) as [H3 H4].
  destruct (shr_fexp prec emax m2 (e + Zpos k) loc_Exact) as [mrs'' e''] eqn:E2.
  cbn [fst snd] in H3, H4.
  exists m2. split; [exact R1|]. split; [exact R2|]. split; [exact R3|].
  rewrite H3, H4. unfold sf_build.
  destruct (m2 / 2 ^ shift_of m2 (e + Zpos k)); reflexivity.
Qed.

(** An integer of at most 53 bits converts exactly. *)
Lemma binary_round_small (s : bool) (p : positive) :
  Z.log2 (Zpos p) <= 52 ->
  exists m, binary_round prec emax s p 0 = S754_finite s m (Z.log2 (Zpos p) - 52) /\
            Z.log2 (Zpos m) = 52.
Proof.
  intros Hl. unfold binary_round.
  assert (Hl0 : 0 <= Z.log2 (Zpos p)) by apply Z.log2_nonneg.
  assert (Hf : fexp prec emax (Zpos (digits2_pos p) + 0) = Z.log2 (Zpos p) - 52).
  { rewrite digits2_pos_log2. change (fexp prec emax) with fexp64. rewrite fexp64_eq. lia. }
  rewrite Hf.
  destruct (shl_align_spec p 0 (Z.log2 (Zpos p) - 52)) as [H1 H2]; [lia|].
  destruct (shl_align p 0 (Z.log2 (Zpos p) - 52)) as [mz ez]. cbn [fst snd] in H1, H2. subst ez.
  replace (0 - (Z.log2 (Zpos p) - 52)) with (52 - Z.log2 (Zpos p)) in H1 by lia.
  assert (Hlz : Z.log2 (Zpos mz) = 52).
  { rewrite H1, log2_shift by lia. lia. }
  assert (Hs : shift_of (Zpos mz) (Z.log2 (Zpos p) - 52) = 0).
  { apply shift_of_canonical; [lia|]. rewrite Hlz, fexp64_eq. lia. }
  destruct (binary_round_aux_spec s (Zpos mz) (Z.log2 (Zpos p) - 52) loc_Exact)
    as (m2 & _ & Hex & ->); [lia|].
  rewrite (Hex Hs eq_refl). rewrite Hs, Z.add_0_r, Hs. simpl (2 ^ 0). rewrite Z.div_1_r.
  exists mz. split; [|exact Hlz].
  unfold sf_build. rewrite Z.add_0_r.
  replace (Z.log2 (Zpos p) - 52 <=? emax - prec) with true; [reflexivity|].
  symmetry. apply Z.leb_le. change (emax - prec) with 971. lia.
Qed.

(** A longer integer is rounded to 53 bits; the rounding carries into a
    54th bit only from [2^53 - 1] with the round bit set. *)
Lemma binary_round_large (s : bool) (p : positive) :
  53 <= Z.log2 (Zpos p) ->
  exists m e,
    binary_round prec emax s p 0 = sf_build s m e /\
    Z.log2 m = 52 /\
    Z.log2 (Zpos p) - 52 <= e <= Z.log2 (Zpos p) - 51 /\
    (Zpos p / 2 ^ (Z.log2 (Zpos p) - 53) < 2 ^ 54 - 1 -> e = Z.log2 (Zpos p) - 52) /\
    (Zpos p / 2 ^ (Z.log2 (Zpos p) - 53) = 2 ^ 54 - 1 -> e = Z.log2 (Zpos p) - 51).
Proof.
  intros Hl. unfold binary_round.
  set (L := Z.log2 (Zpos p)) in *.
  assert (Hf : fexp prec emax (Zpos (digits2_pos p) + 0) = L - 52).
  { rewrite digits2_pos_log2. change (fexp prec emax) with fexp64. rewrite fexp64_eq.
    fold L. lia. }
  rewrite Hf. unfold shl_align.
  destruct (L - 52 - 0) as [|k|k] eqn:Ek; try lia.
  assert (Hk : fexp64 (Zdigits2 (Zpos p) + 0) - 0 = Zpos k).
  { rewrite Zdigits2_log2, fexp64_eq by lia. fold L. lia. }
  destruct (binary_round_aux_shift s (Zpos p) 0 k ltac:(lia) Hk)
    as (m2 & R1 & R2 & R3 & ->).
  replace (Zpos k) with (L - 52) in * by lia.
  replace (L - 52 - 1) with (L - 53) in * by lia.
  generalize (log2_bounds (Zpos p) ltac:(lia)). fold L. intros Hb.
  set (q := Zpos p / 2 ^ (L - 53)) in *.
  assert (Hp53 : 0 < 2 ^ (L - 53)) by (apply pow2_pos; lia).
  assert (Hq : 2 ^ 53 <= q < 2 ^ 54).
  { unfold q. split.
    - apply Z.div_le_lower_bound; [lia|].
      rewrite Z.mul_comm, <- Z.pow_add_r by lia.
      replace (53 + (L - 53)) with L by lia. lia.
    - apply Z.div_lt_upper_bound; [lia|].
      rewrite <- Z.pow_add_r by lia. replace (L - 53 + 54) with (L + 1) by lia. lia. }
  assert (Hm' : Zpos p / 2 ^ (L - 52) = q / 2).
  { unfold q. rewrite Z.div_div by lia. f_equal.
    change 2 with (2 ^ 1) at 3. rewrite <- Z.pow_add_r by lia. f_equal. lia. }
  rewrite Hm' in *.
  generalize (Z.div_mod q 2 ltac:(lia)) (Z.mod_pos_bound q 2 ltac:(lia)). intros Hd Hr.
  assert (Hm2 : 2 ^ 52 <= m2 <= 2 ^ 53) by lia.
  assert (Hl2 : 52 <= Z.log2 m2 <= 53).
  { split; [apply Z.log2_le_pow2; lia|].
    assert (Z.log2 m2 < 54); [|lia]. apply Z.log2_lt_pow2; lia. }
  assert (Hs2 : shift_of m2 (0 + (L - 52)) = Z.log2 m2 - 52).
  { unfold shift_of. rewrite Zdigits2_log2, fexp64_eq by lia. lia. }
  rewrite Hs2.
  assert (Hodd : Z.odd q = true -> q mod 2 = 1).
  { rewrite Zmod_odd. intros ->. reflexivity. }
  assert (Heven : Z.odd q = false -> q mod 2 = 0).
  { rewrite Zmod_odd. intros ->. reflexivity. }
  destruct (Z.eq_dec m2 (2 ^ 53)) as [Hc|Hc].
  - (* the rounding carried *)
    assert (Hl53 : Z.log2 m2 = 53) by (rewrite Hc; reflexivity).
    rewrite Hl53. exists (2 ^ 52), (L - 51).
    split; [f_equal; [rewrite Hc; reflexivity|lia]|].
    split; [reflexivity|]. split; [lia|]. split; [|reflexivity].
    intros Hlt. exfalso.
    destruct (Z.odd q) eqn:Eo.
    + specialize (Hodd eq_refl). lia.
    + specialize (R2 eq_refl). specialize (Heven eq_refl). lia.
  - assert (Hl52 : Z.log2 m2 = 52).
    { assert (Z.log2 m2 < 53); [|lia]. apply Z.log2_lt_pow2; lia. }
    rewrite Hl52. exists m2, (L - 52).
    split; [f_equal; [simpl (2 ^ (52 - 52)); apply Z.div_1_r|lia]|].
    split; [exact Hl52|]. split; [lia|]. split; [reflexivity|].
    intros Heq. exfalso.
    assert (Eo : Z.odd q = true) by (rewrite Heq; reflexivity).
    specialize (Hodd Eo).
    assert (Hq2 : q / 2 = 2 ^ 53 - 1) by lia.
    assert (Ev : Z.even (q / 2) = false) by (rewrite Hq2; reflexivity).
    specialize (R3 Eo Ev). lia.
Qed.

(** A mantissa of exactly 53 bits at an exponent in range is a valid
    float. *)
Lemma bounded_53 (m : positive) (e : Z) :
  Z.log2 (Zpos m) = 52 -> -1074 <= e <= 971 -> bounded prec emax m e = true.
Proof.
  intros Hl He. unfold bounded, canonical_mantissa.
  rewrite digits2_pos_log2, Hl. change (fexp prec emax) with fexp64. rewrite fexp64_eq.
  apply andb_true_intro. split.
  - apply Z.eqb_eq. lia.
  - apply Z.leb_le. change (emax - prec) with 971. lia.
Qed.

(** The conversion of a non-zero integer: a valid finite float below
    [int_overflow_bound], infinity from there on. *)
Lemma binary_round_int (s : bool) (p : positive) :
  (Zpos p < int_overflow_bound ->
   exists m e, binary_round prec emax s p 0 = S754_finite s m e /\
               bounded prec emax m e = true) /\
  (int_overflow_bound <= Zpos p -> binary_round prec emax s p 0 = S754_infinity s).
Proof.
  unfold int_overflow_bound.
  assert (Hl0 : 0 <= Z.log2 (Zpos p)) by apply Z.log2_nonneg.
  destruct (Z.le_gt_cases (Z.log2 (Zpos p)) 52) as [Hs|Hs].
  - destruct (binary_round_small s p Hs) as (m & -> & Hm).
    split.
    + intros _. exists m, (Z.log2 (Zpos p) - 52). split; [reflexivity|].
      apply bounded_53; [exact Hm|lia].
    + intros Hbig. exfalso.
      assert (Zpos p < 2 ^ 53) by (apply Z.log2_lt_pow2; lia).
      assert (2 ^ 53 < 2 ^ 1024 - 2 ^ 970) by reflexivity. lia.
  - destruct (binary_round_large s p ltac:(lia)) as (m & e & -> & Hm & He & Hlo & Hhi).
    set (L := Z.log2 (Zpos p)) in *.
    generalize (log2_bounds (Zpos p) ltac:(lia)). fold L. intros Hb.
    assert (Hmpos : 0 < m).
    { destruct m as [|m|m]; try discriminate; lia. }
    destruct m as [|m|m]; try lia.
    split.
    + intros Hsmall.
      assert (HL : L < 1024) by (apply Z.log2_lt_pow2; lia).
      assert (Hfin : e <= 971).
      { destruct (Z.eq_dec L 1023) as [HL'|HL']; [|lia].
        rewrite Hlo; [lia|]. rewrite HL'. change (1023 - 53) with 970.
        apply Z.div_lt_upper_bound; [reflexivity|].
        change (2 ^ 970 * (2 ^ 54 - 1)) with (2 ^ 1024 - 2 ^ 970). exact Hsmall. }
      exists m, e. unfold sf_build.
      replace (e <=? emax - prec) with true
        by (symmetry; apply Z.leb_le; change (emax - prec) with 971; lia).
      split; [reflexivity|]. apply bounded_53; [exact Hm|lia].
    + intros Hbig.
      assert (HL : 1023 <= L).
      { apply Z.log2_le_pow2; [lia|].
        assert (2 ^ 1023 <= 2 ^ 1024 - 2 ^ 970) by (apply Z.leb_le; reflexivity). lia. }
      assert (Hinf : 971 < e).
      { destruct (Z.eq_dec L 1023) as [HL'|HL']; [|lia].
        rewrite Hhi; [lia|]. rewrite HL'. change (1023 - 53) with 970.
        rewrite HL' in Hb. change (1023 + 1) with 1024 in Hb.
        assert (H1 : 2 ^ 54 - 1 <= Zpos p / 2 ^ 970).
        { apply Z.div_le_lower_bound; [reflexivity|].
          change (2 ^ 970 * (2 ^ 54 - 1)) with (2 ^ 1024 - 2 ^ 970). exact Hbig. }
        assert (H2 : Zpos p / 2 ^ 970 < 2 ^ 54).
        { apply Z.div_lt_upper_bound; [reflexivity|].
          change (2 ^ 970 * 2 ^ 54) with (2 ^ 1024). lia. }
        lia. }
      unfold sf_build.
      replace (e <=? emax - prec) with false
        by (symmetry; apply Z.leb_gt; change (emax - prec) with 971; lia).
      reflexivity.
Qed.

Local Open Scope float_scope.

(** [float(z)] raises exactly from [int_overflow_bound] on, and what it
    returns is never NaN. *)
Lemma py_float_of_int_spec (z : Z) :
  ((Z.abs z <? int_overflow_bound)%Z = true ->
   exists x, py_float_of_int z = Some x /\ is_nan x = false) /\
  ((int_overflow_bound <=? Z.abs z)%Z = true -> py_float_of_int z = None).
Proof.
  unfold py_float_of_int.
  assert (Hfin : forall s m e, bounded prec emax m e = true ->
                   is_nan (SF2Prim (S754_finite s m e)) = false).
  { intros s m e Hb. destruct (is_nan (SF2Prim (S754_finite s m e))) eqn:E; [|reflexivity].
    apply is_nan_spec in E. rewrite Prim2SF_SF2Prim in E by exact Hb. discriminate. }
  destruct z as [|p|p]; cbn [binary_normalize Z.abs].
  - split.
    + intros _. exists 0. split; reflexivity.
    + intros H. discriminate.
  - destruct (binary_round_int false p) as [H1 H2]. split.
    + intros H. apply Z.ltb_lt in H. destruct (H1 H) as (m & e & -> & Hb).
      eexists. split; [reflexivity|]. apply Hfin. exact Hb.
    + intros H. apply Z.leb_le in H. rewrite (H2 H). reflexivity.
  - destruct (binary_round_int true p) as [H1 H2]. split.
    + intros H. apply Z.ltb_lt in H. destruct (H1 H) as (m & e & -> & Hb).
      eexists. split; [reflexivity|]. apply Hfin. exact Hb.
    + intros H. apply Z.leb_le in H. rewrite (H2 H). reflexivity.
Qed.

End IntegerToFloat.

(** * The batch tab *)

Section BatchRows.

Variable float_of_text : string -> option float.

Lemma row_fold_none (r : row) : fold_left (row_step float_of_text) r None = None.
Proof. induction r as [|item r IH]; simpl; [reflexivity|exact IH]. Qed.

Lemma row_fold_cons (r : row) (c : dict float) (k : string) (v : cell) :
  fold_left (row_step float_of_text) ((k, v) :: r) (Some c)
  = fold_left (row_step float_of_text) r
      (if existsb (String.eqb k) ["matrix"; "heat"] || isna v
       then Some c
       else match py_float float_of_text v with
            | Some x => Some (dict_set c k x)
            | None => None
            end).
Proof. reflexivity. Qed.

Lemma bad_item_cons (r : row) (k : string) (v : cell) :
  existsb (bad_item float_of_text) ((k, v) :: r)
  = negb (existsb (String.eqb k) ["matrix"; "heat"])
    && match v with
       | Text s => match float_of_text s with None => true | Some _ => false end
       | Number _ => false
       | Integer z => (int_overflow_bound <=? Z.abs z)%Z
       end
    || existsb (bad_item float_of_text) r.
Proof. reflexivity. Qed.

Lemma excluded_inv (k : string) :
  existsb (String.eqb k) ["matrix"; "heat"] = false ->
  String.eqb k "matrix" = false /\ String.eqb k "heat" = false.
Proof.
  simpl. intros E. apply orb_false_elim in E. destruct E as [E1 E2].
  apply orb_false_elim in E2. destruct E2 as [E2 _]. split; assumption.
Qed.

(** The conversion of an integer cell fails exactly from the bound on. *)
Lemma py_float_of_int_cases (z : Z) :
  ((int_overflow_bound <=? Z.abs z)%Z = true /\ py_float_of_int z = None) \/
  ((int_overflow_bound <=? Z.abs z)%Z = false /\
   exists x, py_float_of_int z = Some x /\ is_nan x = false).
Proof.
  destruct (py_float_of_int_spec z) as [H1 H2].
  destruct (int_overflow_bound <=? Z.abs z)%Z eqn:E.
  - left. split; [reflexivity|]. apply H2. reflexivity.
  - right. split; [reflexivity|]. apply H1.
    apply Z.leb_gt in E. apply Z.ltb_lt. exact E.
Qed.

Lemma row_fold_fails (r : row) :
  forall c, fold_left (row_step float_of_text) r (Some c) = None
            <-> existsb (bad_item float_of_text) r = true.
Proof.
  induction r as [|[k v] r IH]; intros c.
  - simpl. split; discriminate.
  - rewrite row_fold_cons, bad_item_cons.
    destruct (existsb (String.eqb k) ["matrix"; "heat"]) eqn:Ek.
    + apply IH.
    + destruct v as [s|x|z]; cbn [isna py_float orb negb andb].
      * destruct (float_of_text s) as [y|].
        -- apply IH.
        -- rewrite row_fold_none. split; reflexivity.
      * destruct (is_nan x); apply IH.
      * destruct (py_float_of_int_cases z) as [[-> ->]|[-> (x & -> & _)]].
        -- rewrite row_fold_none. split; reflexivity.
        -- apply IH.
Qed.

Lemma row_fold_keys (r : row) :
  forall c comp,
    NoDup (keys c) -> has_key c "matrix" = false -> has_key c "heat" = false ->
    fold_left (row_step float_of_text) r (Some c) = Some comp ->
    NoDup (keys comp) /\ has_key comp "matrix" = false /\ has_key comp "heat" = false.
Proof.
  induction r as [|[k v] r IH]; intros c comp Hnd Hm Hh.
  - simpl. intros H. injection H as <-. repeat split; assumption.
  - rewrite row_fold_cons.
    destruct (existsb (String.eqb k) ["matrix"; "heat"]) eqn:Ek; cbn [orb].
    + apply IH; assumption.
    + destruct (isna v).
      * apply IH; assumption.
      * destruct (py_float float_of_text v) as [x|].
        -- apply excluded_inv in Ek. destruct Ek as [E1 E2].
           apply IH.
           ++ apply dict_set_nodup. exact Hnd.
           ++ rewrite has_key_set, Hm, E1. reflexivity.
           ++ rewrite has_key_set, Hh, E2. reflexivity.
        -- rewrite row_fold_none. discriminate.
Qed.

Lemma values_dict_set (P : float -> bool) (c : dict float) (k : string) (x : float) :
  forallb P (values c) = true -> P x = true ->
  forallb P (values (dict_set c k x)) = true.
Proof.
  unfold values. intros Hc Hx. induction c as [|[k1 v1] c IH]; simpl.
  - rewrite Hx. reflexivity.
  - simpl in Hc. apply andb_prop in Hc. destruct Hc as [H1 H2].
    destruct (String.eqb k1 k); simpl.
    + rewrite Hx. exact H2.
    + rewrite H1. apply IH. exact H2.
Qed.

Lemma row_fold_numbers (r : row) :
  forall c,
    forallb (fun item => existsb (String.eqb (fst item)) ["matrix"; "heat"]
                         || is_number (snd item)) r = true ->
    forallb (fun v => negb (is_nan v)) (values c) = true ->
    exists comp,
      fold_left (row_step float_of_text) r (Some c) = Some comp /\
      forallb (fun v => negb (is_nan v)) (values comp) = true.
Proof.
  induction r as [|[k v] r IH]; intros c Hr Hc.
  - exists c. split; [reflexivity|exact Hc].
  - rewrite row_fold_cons.
    cbn [forallb fst snd] in Hr. apply andb_prop in Hr. destruct Hr as [Hv Hr].
    destruct (existsb (String.eqb k) ["matrix"; "heat"]); cbn [orb] in *.
    + apply IH; assumption.
    + destruct v as [s|x|z]; [discriminate| |]; cbn [isna py_float is_number] in *.
      * destruct (is_nan x) eqn:En.
        -- apply IH; assumption.
        -- apply IH; [exact Hr|]. apply values_dict_set; [exact Hc|].
           rewrite En. reflexivity.
      * destruct (py_float_of_int_spec z) as [H1 _].
        destruct (H1 Hv) as (x & -> & Hx).
        apply IH; [exact Hr|]. apply values_dict_set; [exact Hc|].
        rewrite Hx. reflexivity.
Qed.

Lemma process_row_fails (r : row) :
  process_row float_of_text r = None <-> existsb (bad_item float_of_text) r = true.
Proof.
  unfold process_row. cbv zeta.
  destruct (row_composition float_of_text r) as [comp|] eqn:E; unfold row_composition in E.
  - split; [discriminate|]. intros H. apply (row_fold_fails r []) in H.
    discriminate (eq_trans (eq_sym E) H).
  - split; [intros _|reflexivity]. apply (row_fold_fails r []). exact E.
Qed.

Lemma batch_results_fails (rows : list row) :
  batch_results float_of_text rows = None
  <-> existsb (fun r => existsb (bad_item float_of_text) r) rows = true.
Proof.
  induction rows as [|r rows IH].
  - simpl. split; discriminate.
  - cbn [batch_results existsb]. rewrite orb_true_iff, <- IH, <- process_row_fails.
    destruct (process_row float_of_text r) as [p|].
    + destruct (batch_results float_of_text rows) as [ps|].
      * split; [discriminate|]. intros [H|H]; discriminate.
      * split; [right|]; reflexivity.
    + split; [left|]; reflexivity.
Qed.

Lemma batch_results_length (rows : list row) :
  forall ps, batch_results float_of_text rows = Some ps ->
             List.length ps = List.length rows.
Proof.
  induction rows as [|r rows IH]; simpl; intros ps.
  - intros H. injection H as <-. reflexivity.
  - destruct (process_row float_of_text r) as [p|]; [|discriminate].
    destruct (batch_results float_of_text rows) as [ps'|]; [|discriminate].
    intros H. injection H as <-. simpl. f_equal. apply IH. reflexivity.
Qed.

End BatchRows.

Lemma predict_cell_text (matrix heat : string) (comp : dict float) :
  predict_cell (Text matrix) comp (Text heat) = predict matrix comp heat.
Proof. reflexivity. Qed.

(** X11.  The composition taken from a row is a proper dictionary that
    never has "matrix" or "heat" among its keys. *)
Theorem row_composition_keys
    (float_of_text : string -> option float) (r : row) (comp : dict float) :
  row_composition float_of_text r = Some comp ->
  NoDup (keys comp) /\ has_key comp "matrix" = false /\ has_key comp "heat" = false.
Proof.
  unfold row_composition. apply row_fold_keys; try reflexivity. constructor.
Qed.

Lemma row_composition_keys_witness :
  NoDup (keys [("C", 0.4); ("Cr", 1.0)]) /\
  has_key [("C", 0.4); ("Cr", 1.0)] "matrix" = false /\
  has_key [("C", 0.4); ("Cr", 1.0)] "heat" = false.
Proof.
  apply (row_composition_keys (fun _ => None)
           [("matrix", Text "Fe"); ("C", Number 0.4); ("heat", Text "Hardening");
            ("Cr", Number 1.0)]
           [("C", 0.4); ("Cr", 1.0)]).
  reflexivity.
Defined.

(** X12.  A row in which every cell outside the "matrix" and "heat"
    columns is a float or an integer that a float can hold (magnitude
    below [2^1024 - 2^970]) never raises, and its empty cells (NaN) are
    left out: no value of the composition is NaN. *)
Theorem numeric_row_composition
    (float_of_text : string -> option float) (r : row) :
  forallb (fun item => existsb (String.eqb (fst item)) ["matrix"; "heat"]
                       || is_number (snd item)) r = true ->
  exists comp,
    row_composition float_of_text r = Some comp /\
    forallb (fun v => negb (is_nan v)) (values comp) = true.
Proof.
  intros H. unfold row_composition. apply row_fold_numbers; [exact H|reflexivity].
Qed.

Lemma numeric_row_composition_witness :
  exists comp,
    row_composition (fun _ => None)
      [("matrix", Text "Fe"); ("C", Number 0.4); ("Cr", Number nan); ("Ni", Integer 2)]
    = Some comp /\
    forallb (fun v => negb (is_nan v)) (values comp) = true.
Proof.
  apply (numeric_row_composition (fun _ => None)
           [("matrix", Text "Fe"); ("C", Number 0.4); ("Cr", Number nan);
            ("Ni", Integer 2)]).
  reflexivity.
Defined.

(** X13.  A row of a table without "matrix" and "heat" columns is
    predicted for an iron matrix, normalized. *)
Theorem row_defaults (float_of_text : string -> option float) (r : row) :
  has_key r "matrix" = false -> has_key r "heat" = false ->
  process_row float_of_text r
  = option_map (fun comp => predict "Fe" comp "Normalizing")
               (row_composition float_of_text r).
Proof.
  intros Hm Hh. unfold process_row. cbv zeta.
  rewrite (dict_get_absent r "matrix" (Text "Fe") Hm).
  rewrite (dict_get_absent r "heat" (Text "Normalizing") Hh).
  destruct (row_composition float_of_text r); reflexivity.
Qed.

Lemma row_defaults_witness :
  process_row (fun _ => None) [("C", Number 0.2)]
  = Some (predict "Fe" [("C", 0.2)] "Normalizing").
Proof.
  rewrite (row_defaults (fun _ => None) [("C", Number 0.2)] eq_refl eq_refl).
  reflexivity.
Defined.



(** X15.  The batch run is all or nothing: it raises exactly when some
    row has, in a column other than "matrix" and "heat", a text that
    [float] rejects or an integer too large for a float (magnitude
    [2^1024 - 2^970] or more); otherwise it yields one prediction per
    row. *)
Theorem batch_all_or_nothing
    (float_of_text : string -> option float) (rows : list row) :
  (batch_results float_of_text rows = None
   <-> existsb (fun r => existsb (bad_item float_of_text) r) rows = true) /\
  (forall ps, batch_results float_of_text rows = Some ps ->
              List.length ps = List.length rows).
Proof.
  split; [apply batch_results_fails|apply batch_results_length].
Qed.

Lemma batch_all_or_nothing_witness :
  batch_results (fun _ => None)
    [ [("matrix", Text "Al"); ("Cu", Number 4.4)];
      [("matrix", Text "Fe"); ("C", Text "n/a")] ] = None /\
  batch_results (fun _ => None)
    [ [("matrix", Text "Fe"); ("Cr", Integer (2 ^ 1024))] ] = None.
Proof.
  split.
  - apply (batch_all_or_nothing (fun _ => None)
             [ [("matrix", Text "Al"); ("Cu", Number 4.4)];
               [("matrix", Text "Fe"); ("C", Text "n/a")] ]).
    reflexivity.
  - apply (batch_all_or_nothing (fun _ => None)
             [ [("matrix", Text "Fe"); ("Cr", Integer (2 ^ 1024))] ]).
    reflexivity.
Defined.
